(** * Integration and folding of sample streams (scintillometry/integration.py)

    A shallow embedding of the integration tasks [Integrate], [Fold] and
    [Stack] together with the numpy operations they are written with.

    Conventions of the embedding.
    - Sample values, times, rates and phases are exact rationals ([Q]); they
      stand for the floating-point numbers and astropy quantities of the
      source.  The two special results of a floating-point division by a
      zero count (NaN and the infinities) are explicit in [fval].
    - Sample positions in the underlying stream are integers ([Z]), array
      indices are [nat].
    - The sample shape of the underlying stream is the scalar shape [()].
    - A call that raises is [Raised]; the one unbounded loop of the source
      (the [while] of [Integrate._get_offsets]) runs on fuel and is
      [Diverged] when the fuel is exhausted before the loop condition
      becomes false. *)

From Stdlib Require Import ZArith QArith Qround Qabs List Bool Lia Lqa.
Import ListNotations.

Open Scope Z_scope.

(* ------------------------------------------------------------------ *)
(** * Results of calls *)

Inductive error : Type :=
| IndexError
| NotSubscriptable   (* [x[-1]] on a scalar: TypeError or IndexError *)
| ValueError
| EOFError
| ZeroDivisionError.

Inductive outcome (A : Type) : Type :=
| Done (a : A)
| Raised (e : error)
| Diverged.

Arguments Done {A} a.
Arguments Raised {A} e.
Arguments Diverged {A}.

Definition bind {A B : Type} (m : outcome A) (k : A -> outcome B) : outcome B :=
  match m with
  | Done a => k a
  | Raised e => Raised e
  | Diverged => Diverged
  end.

Notation "x <- m ;; k" := (bind m (fun x => k))
  (at level 61, m at next level, right associativity).
Notation "' p <- m ;; k" := (bind m (fun x => match x with p => k end))
  (at level 61, p pattern, m at next level, right associativity).

(* ------------------------------------------------------------------ *)
(** * Numbers *)

(** [np.round]: round to the nearest integer, a tie to the even one. *)
Definition np_round (x : Q) : Z :=
  let f := Qfloor x in
  match Qcompare (x - inject_Z f) (1 # 2) with
  | Lt => f
  | Gt => f + 1
  | Eq => if Z.even f then f else f + 1
  end.

(** Python's [int(x)] on a real: truncation towards zero. *)
Definition py_int (x : Q) : Z :=
  if Qle_bool 0 x then Qfloor x else Qceiling x.

(** numpy's [%] on reals: the remainder has the sign of the divisor. *)
Definition np_mod (x n : Q) : Q := x - n * inject_Z (Qfloor (x / n)).

(** The value of an output element after [out /= count]. *)
Inductive fval : Type :=
| FNum (q : Q)
| FInf (negative : bool)
| FNaN.

(** Floating-point division of a sum by an integer count. *)
Definition fdiv (s : Q) (c : Z) : fval :=
  if c =? 0 then
    match Qcompare s 0 with
    | Eq => FNaN
    | Lt => FInf true
    | Gt => FInf false
    end
  else FNum (s / inject_Z c).

Definition Qsum (l : list Q) : Q := fold_right Qplus 0%Q l.
Definition Zsum (l : list Z) : Z := fold_right Z.add 0 l.

(* ------------------------------------------------------------------ *)
(** * numpy arrays as lists *)

(** [a[i:j]] for [0 <= i], [0 <= j]. *)
Definition py_slice {A : Type} (a : list A) (i j : nat) : list A :=
  firstn (j - i) (skipn i a).

(** [np.searchsorted(a, v, side='left')]: on a sorted array, the index of the
    first element that is not below [v]. *)
Fixpoint searchsorted_left (a : list Z) (v : Z) : nat :=
  match a with
  | [] => O
  | x :: a' => if x <? v then S (searchsorted_left a' v) else O
  end.

(** [np.searchsorted(a, v, side='right')]: on a sorted array, the index of the
    first element above [v]. *)
Fixpoint searchsorted_right (a : list Z) (v : Z) : nat :=
  match a with
  | [] => O
  | x :: a' => if x <=? v then S (searchsorted_right a' v) else O
  end.

(** [a[0] = v]; an empty array has no element 0. *)
Definition set_first {A : Type} (a : list A) (v : A) : outcome (list A) :=
  match a with
  | [] => Raised IndexError
  | _ :: a' => Done (v :: a')
  end.

(** [a[-1] = v]. *)
Definition set_last {A : Type} (a : list A) (v : A) : outcome (list A) :=
  match a with
  | [] => Raised IndexError
  | _ => Done (removelast a ++ [v])
  end.

(** [np.diff]. *)
Fixpoint diff (a : list Z) : list Z :=
  match a with
  | x :: ((y :: _) as a') => (y - x) :: diff a'
  | _ => []
  end.

(** One element of [np.add.reduceat(data, idx)]: the sum of
    [data[i:next]] when [i < next], and [data[i]] alone otherwise. *)
Definition reduce_segment (data : list Q) (i next : Z) : Q :=
  if i <? next
  then Qsum (py_slice data (Z.to_nat i) (Z.to_nat next))
  else nth (Z.to_nat i) data 0%Q.

Fixpoint reduceat_from (data : list Q) (idx : list Z) : list Q :=
  match idx with
  | [] => []
  | i :: idx' =>
      reduce_segment data i
        (match idx' with
         | [] => Z.of_nat (length data)
         | next :: _ => next
         end)
      :: reduceat_from data idx'
  end.

(** [np.add.reduceat(data, idx)]; an index outside the data raises. *)
Definition reduceat (data : list Q) (idx : list Z) : outcome (list Q) :=
  if forallb (fun i => (0 <=? i) && (i <? Z.of_nat (length data))) idx
  then Done (reduceat_from data idx)
  else Raised IndexError.

(** Elementwise combination of two arrays of one length. *)
Fixpoint zip_with {A B C : Type} (f : A -> B -> C) (a : list A) (b : list B)
  : list C :=
  match a, b with
  | x :: a', y :: b' => f x y :: zip_with f a' b'
  | _, _ => []
  end.

(** [buf[start:stop] += vals]; [vals] has the length of the slice, or is a
    single value that is broadcast over it. *)
Definition slice_add {A : Type} (add : A -> A -> A) (buf : list A)
    (start stop : nat) (vals : list A) : outcome (list A) :=
  let target := py_slice buf start stop in
  let put new := Done (firstn start buf ++ new ++ skipn (start + length target) buf) in
  if Nat.eqb (length vals) (length target)
  then put (zip_with add target vals)
  else match vals with
       | [v] => put (map (fun x => add x v) target)
       | _ => Raised ValueError
       end.

(** Boolean-mask selection [a[mask]]. *)
Fixpoint mask_select {A : Type} (mask : list bool) (a : list A) : list A :=
  match mask, a with
  | m :: mask', x :: a' =>
      if m then x :: mask_select mask' a' else mask_select mask' a'
  | _, _ => []
  end.

(** Boolean-mask assignment [a[mask] = vals]. *)
Fixpoint mask_assign {A : Type} (mask : list bool) (a : list A) (vals : list A)
  : list A :=
  match mask, a with
  | m :: mask', x :: a' =>
      if m
      then match vals with
           | v :: vals' => v :: mask_assign mask' a' vals'
           | [] => x :: mask_assign mask' a' []
           end
      else x :: mask_assign mask' a' vals
  | _, _ => a
  end.

(** An index or an array of indices, as [_get_offsets] receives and returns
    them. *)
Inductive pyarg : Type :=
| Scalar (i : Z)
| Array (l : list Z).

Definition atleast_1d (a : pyarg) : list Z :=
  match a with
  | Scalar i => [i]
  | Array l => l
  end.

(** A function applied to an index or to every element of an array. *)
Definition pymap (f : Z -> Z) (a : pyarg) : pyarg :=
  match a with
  | Scalar i => Scalar (f i)
  | Array l => Array (map f l)
  end.

(* ------------------------------------------------------------------ *)
(** * The underlying stream *)

Module Stream.

(** Modelled from the spec: the underlying stream reader, an external
    collaborator of which the source uses [seek], [tell], [time], [read],
    [shape], [sample_rate], [start_time] and [stop_time].  [read(out=...)]
    delivers the requested samples in one or more consecutive pieces, each by
    one assignment [out[a:b] = piece]; [chunking offset count] lists the
    lengths of the pieces the reader chooses for a request. *)
Record t : Type := mk {
  data : list Q;
  sample_rate : Q;
  start_time : Q;
  offset : Z;
  chunking : nat -> nat -> list nat
}.

Definition shape0 (ih : t) : Z := Z.of_nat (length (data ih)).

Definition seek (ih : t) (pos : Z) : t :=
  mk (data ih) (sample_rate ih) (start_time ih) pos (chunking ih).

Definition tell (ih : t) : Z := offset ih.

Definition time_at (ih : t) (pos : Z) : Q :=
  start_time ih + inject_Z pos / sample_rate ih.

Definition time (ih : t) : Q := time_at ih (offset ih).

Definition stop_time (ih : t) : Q := time_at ih (shape0 ih).

(** The pieces of a request are non-empty and add up to it. *)
Definition pieces_ok (count : nat) (pieces : list nat) : Prop :=
  fold_right Nat.add O pieces = count /\ Forall (fun c => (0 < c)%nat) pieces.

Definition reader_ok (ih : t) : Prop :=
  forall pos count, pieces_ok count (chunking ih pos count).

Section Read.
Context {B : Type}.
(** [setitem a b piece buf]: the callback behind [out[a:b] = piece]. *)
Variable setitem : Z -> Z -> list Q -> B -> outcome B.

Fixpoint deliver (source : list Q) (pieces : list nat) (pos : nat) (buf : B)
  : outcome B :=
  match pieces with
  | [] => Done buf
  | c :: pieces' =>
      buf' <- setitem (Z.of_nat pos) (Z.of_nat (pos + c))
                (py_slice source pos (pos + c)) buf ;;
      deliver source pieces' (pos + c)%nat buf'
  end.

(** [ih.read(out=out)] for an [out] of [count] samples: nothing is read for
    [count <= 0], and a request that runs over the end of the data is a
    fatal read error. *)
Definition read (ih : t) (count : Z) (buf : B) : outcome (B * t) :=
  if count <=? 0 then Done (buf, ih)
  else if (0 <=? offset ih) && (offset ih + count <=? shape0 ih) then
    let source := py_slice (data ih) (Z.to_nat (offset ih))
                    (Z.to_nat (offset ih + count)) in
    buf' <- deliver source
              (chunking ih (Z.to_nat (offset ih)) (Z.to_nat count)) O buf ;;
    Done (buf', seek ih (offset ih + count))
  else Raised EOFError.

End Read.

(** A reader whose data comes in frames of [n] samples: a request is cut at
    the frame boundaries. *)
Fixpoint framed_pieces (fuel n pos count : nat) : list nat :=
  match fuel with
  | O => []
  | S fuel' =>
      if Nat.eqb count 0 then []
      else
        let c := Nat.min count (n - Nat.modulo pos n) in
        c :: framed_pieces fuel' n (pos + c) (count - c)
  end.

Definition framed (n : nat) (pos count : nat) : list nat :=
  framed_pieces count n pos count.

End Stream.

(* ------------------------------------------------------------------ *)
(** * IntegrateBase *)

(** The array a frame read returns: the averages, or the structured array
    with the [data] and [count] fields. *)
Inductive output (B F : Type) : Type :=
| Averaged (f : F)
| Structured (b : B).

Arguments Averaged {B F} f.
Arguments Structured {B F} b.

Module IntegrateBase.

(** What one call of [_read_frame] leaves: [acc] are the sum and count
    buffers as accumulated by [_integrate] (before any division), [out] is
    the returned array. *)
Record frame (B F : Type) : Type := mkFrame {
  acc : B;
  out : output B F
}.

Arguments mkFrame {B F} acc out.
Arguments acc {B F} f.
Arguments out {B F} f.

Section Methods.
(** [T] is the state of the subclass, [B] its sum and count buffers and [F]
    its averaged array; the variables are what the subclass provides. *)
Context {T B F : Type}.
Variable ih : T -> Stream.t.
Variable set_ih : T -> Stream.t -> T.
Variable average : T -> bool.
Variable samples_per_frame : T -> nat.
Variable _get_offsets : nat -> T -> pyarg -> outcome (pyarg * T).
Variable zeros : T -> B.
Variable _integrate : T -> list Z -> Z -> Z -> list Q -> B -> outcome B.
Variable divide : B -> F.

(** [frame_index * samples_per_frame + np.arange(samples_per_frame + 1)] *)
Definition frame_samples (self : T) (frame_index : nat) : pyarg :=
  Array (map (fun j => Z.of_nat (frame_index * samples_per_frame self + j))
             (seq 0 (samples_per_frame self + 1))).

(** The first lines of [_read_frame]: the offsets of the frame, and the seek
    to the first of them. *)
Definition resolve_and_seek (fuel : nat) (self : T) (frame_index : nat)
  : outcome (list Z * T) :=
  '(offsets, self) <- _get_offsets fuel self (frame_samples self frame_index) ;;
  match offsets with
  | Array ((o0 :: _) as offsets) =>
      Done (offsets, set_ih self (Stream.seek (ih self) o0))
  | Array [] => Raised IndexError
  | Scalar _ => Raised NotSubscriptable
  end.

Definition _read_frame (fuel : nat) (self : T) (frame_index : nat)
  : outcome (frame B F * T) :=
  '(offsets, self) <- resolve_and_seek fuel self frame_index ;;
  let offsets := map (fun o => o - hd 0 offsets) offsets in
  '(buf, ih') <- Stream.read (_integrate self offsets) (ih self)
                   (last offsets 0) (zeros self) ;;
  Done (mkFrame buf (if average self then Averaged (divide buf)
                     else Structured buf),
        set_ih self ih').

End Methods.

(** The buffers of a one-dimensional frame: [_result] and [_count]. *)
Definition buffers : Type := (list Q * list Z)%type.

(** [IntegrateBase._integrate] *)
Definition _integrate (_offsets : list Z) (item_start item_stop : Z)
    (data : list Q) (buf : buffers) : outcome buffers :=
  let '(_result, _count) := buf in
  let start := searchsorted_right (tl _offsets) item_start in
  let stop := searchsorted_left (removelast _offsets) item_stop in
  let indices := map (fun o => o - item_start)
                     (py_slice _offsets start (stop + 1)) in
  indices <- set_first indices 0 ;;
  indices <- set_last indices (item_stop - item_start) ;;
  sums <- reduceat data (removelast indices) ;;
  _result <- slice_add Qplus _result start stop sums ;;
  _count <- slice_add Z.add _count start stop (diff indices) ;;
  Done (_result, _count).

End IntegrateBase.

(* ------------------------------------------------------------------ *)
(** * Integrate *)

(** The [step] argument: absent, an integer number of samples, or a
    quantity (a time, or a phase when a phase function is given). *)
Inductive step_arg : Type :=
| StepNone
| StepIndex (n : Z)
| StepQuantity (q : Q).

Module Integrate.

Record t : Type := mk {
  ih : Stream.t;
  phase : option (Q -> Q);
  average : bool;
  samples_per_frame : nat;
  shape0 : Z;
  sample_rate : Q;
  _start : Q;
  _step : Q;
  _ih_mean_sample_per_sample : Q;
  _last_offset : Z;
  _last_phase : Q
}.

Definition set_ih (self : t) (ih' : Stream.t) : t :=
  mk ih' (phase self) (average self) (samples_per_frame self) (shape0 self)
     (sample_rate self) (_start self) (_step self)
     (_ih_mean_sample_per_sample self) (_last_offset self) (_last_phase self).

Definition set_last (self : t) (last_offset : Z) (last_phase : Q) : t :=
  mk (ih self) (phase self) (average self) (samples_per_frame self)
     (shape0 self) (sample_rate self) (_start self) (_step self)
     (_ih_mean_sample_per_sample self) last_offset last_phase.

(** [Integrate.__init__].  A zero step and an empty output both end in a
    division by zero. *)
Definition init (ih : Stream.t) (step : step_arg) (phase : option (Q -> Q))
    (average : bool) (samples_per_frame : nat) : outcome t :=
  let step :=
    match step with
    | StepNone => (inject_Z (Stream.shape0 ih) / Stream.sample_rate ih)%Q
    | StepIndex n => (inject_Z n / Stream.sample_rate ih)%Q
    | StepQuantity q => q
    end in
  if Qeq_bool step 0 then Raised ZeroDivisionError
  else
    let start :=
      match phase with
      | None => Stream.start_time ih
      | Some f => f (Stream.start_time ih)
      end in
    let stop :=
      match phase with
      | None => Stream.stop_time ih
      | Some f => f (Stream.stop_time ih)
      end in
    let shape0 := py_int ((stop - start) / step)%Q in
    if shape0 =? 0 then Raised ZeroDivisionError
    else
      Done (mk ih phase average samples_per_frame shape0 (1 / step)%Q start step
               (inject_Z (Stream.shape0 ih) / inject_Z shape0)%Q 0 start).

(** The fixed-rate position of output sample [i]. *)
Definition fixed_offset (self : t) (i : Z) : Z :=
  np_round (inject_Z i / sample_rate self * Stream.sample_rate (ih self))%Q.

(** The rounded step correction for target phase [p] when the phase at the
    candidate is [q]. *)
Definition correction (self : t) (p q : Q) : Z :=
  np_round ((p - q) * sample_rate self * _ih_mean_sample_per_sample self)%Q.

(** [offsets += check], for [offsets] a scalar or an array. *)
Definition iadd (offsets : pyarg) (check : list Z) : list Z :=
  match offsets with
  | Scalar o => map (fun c => o + c) check
  | Array l => zip_with Z.add l check
  end.

Definition nonzero (check : list Z) : list bool :=
  map (fun c => negb (c =? 0)) check.

(** The [while np.any(mask)] loop of [_get_offsets].  [ih_phase] is [None]
    as long as the local variable has not been assigned. *)
Fixpoint resolve (fuel : nat) (self : t) (f : Q -> Q) (phase : list Q)
    (offsets : pyarg) (check : list Z) (ih_phase : option (list Q))
  : outcome (pyarg * option (list Q)) :=
  let mask := nonzero check in
  if existsb (fun m => m) mask then
    match fuel with
    | O => Diverged
    | S fuel' =>
        let offsets := iadd offsets check in
        let ih_time := map (Stream.time_at (ih self)) (mask_select mask offsets) in
        let ih_phase := map f ih_time in
        let check := mask_assign mask check
                       (zip_with (correction self) (mask_select mask phase)
                                 ih_phase) in
        resolve fuel' self f phase (Array offsets) check (Some ih_phase)
    end
  else Done (offsets, ih_phase).

(** [Integrate._get_offsets] *)
Definition _get_offsets (fuel : nat) (self : t) (samples : pyarg)
  : outcome (pyarg * t) :=
  match phase self with
  | None =>
      Done (pymap (fixed_offset self) samples, self)
  | Some f =>
      let phase := map (fun i => (_start self + inject_Z i / sample_rate self)%Q)
                       (atleast_1d samples) in
      let offsets := Scalar (_last_offset self) in
      let check := map (fun p => correction self p (_last_phase self)) phase in
      '(offsets, ih_phase) <- resolve fuel self f phase offsets check None ;;
      match offsets with
      | Scalar _ => Raised NotSubscriptable
      | Array [] => Raised IndexError
      | Array ((o0 :: _) as l) =>
          match ih_phase with
          | Some ((q0 :: _) as qs) =>
              Done (match samples with
                    | Scalar _ => Scalar o0
                    | Array _ => Array l
                    end,
                    set_last self (last l 0) (last qs 0%Q))
          | _ => Raised IndexError
          end
      end
  end.

Definition zeros (self : t) : IntegrateBase.buffers :=
  (repeat 0%Q (samples_per_frame self), repeat 0 (samples_per_frame self)).

(** [out /= self._count] *)
Definition divide (buf : IntegrateBase.buffers) : list fval :=
  zip_with fdiv (fst buf) (snd buf).

Definition resolve_and_seek :=
  IntegrateBase.resolve_and_seek ih set_ih samples_per_frame _get_offsets.

Definition _read_frame :=
  IntegrateBase._read_frame ih set_ih average samples_per_frame _get_offsets
    zeros (fun _ => IntegrateBase._integrate) divide.

(** [Integrate.stop_time]: the time at the offset of the sample one past the
    last, with the position of the stream restored. *)
Definition stop_time (fuel : nat) (self : t) : outcome (Q * t) :=
  '(raw_stop, self) <- _get_offsets fuel self (Scalar (shape0 self)) ;;
  match raw_stop with
  | Scalar raw_stop =>
      let raw_offset := Stream.tell (ih self) in
      let there := Stream.seek (ih self) raw_stop in
      Done (Stream.time there, set_ih self (Stream.seek there raw_offset))
  | Array _ => Raised ValueError
  end.

End Integrate.

(* ------------------------------------------------------------------ *)
(** * Fold *)

(** [np.arange(start, stop)] *)
Definition arange (start stop : Z) : list Z :=
  map (fun k => start + Z.of_nat k) (seq 0 (Z.to_nat (stop - start))).

(** An index into an axis of length [len]: a negative one counts from the
    end, one outside the axis raises. *)
Definition axis_index (len : nat) (i : Z) : outcome nat :=
  if (0 <=? i) && (i <? Z.of_nat len) then Done (Z.to_nat i)
  else if (- Z.of_nat len <=? i) && (i <? 0) then Done (Z.to_nat (i + Z.of_nat len))
  else Raised IndexError.

(** [a[i] = f(a[i])] for an index inside the array. *)
Fixpoint update {A : Type} (a : list A) (i : nat) (f : A -> A) : list A :=
  match a, i with
  | [], _ => []
  | x :: a', O => f x :: a'
  | x :: a', S i' => x :: update a' i' f
  end.

(** [np.add.at(a, (rows, cols), vals)]: the additions are done one after the
    other, so that an element indexed several times receives every value. *)
Fixpoint add_at {A : Type} (add : A -> A -> A) (a : list (list A))
    (index : list (Z * Z)) (vals : list A) : outcome (list (list A)) :=
  match index, vals with
  | (r, c) :: index', v :: vals' =>
      r <- axis_index (length a) r ;;
      c <- axis_index (length (nth r a [])) c ;;
      add_at add (update a r (fun row => update row c (fun x => add x v)))
             index' vals'
  | _, _ => Done a
  end.

Module Fold.

Record t : Type := mk {
  ih : Stream.t;
  n_phase : nat;
  phase : Q -> Q;
  average : bool;
  samples_per_frame : nat;
  _integrator : Integrate.t;
  _raw_time : Q
}.

Definition set_ih (self : t) (ih' : Stream.t) : t :=
  mk ih' (n_phase self) (phase self) (average self) (samples_per_frame self)
     (_integrator self) (_raw_time self).

Definition set_integrator (self : t) (i : Integrate.t) : t :=
  mk (ih self) (n_phase self) (phase self) (average self)
     (samples_per_frame self) i (_raw_time self).

Definition set_raw_time (self : t) (time : Q) : t :=
  mk (ih self) (n_phase self) (phase self) (average self)
     (samples_per_frame self) (_integrator self) time.

(** [Fold.__init__]; the integrator is an [Integrate] without phase. *)
Definition init (ih : Stream.t) (n_phase : nat) (phase : Q -> Q)
    (step : step_arg) (average : bool) (samples_per_frame : nat) : outcome t :=
  integrator <- Integrate.init ih step None average samples_per_frame ;;
  Done (mk ih n_phase phase average samples_per_frame integrator 0%Q).

Definition _get_offsets (fuel : nat) (self : t) (samples : pyarg)
  : outcome (pyarg * t) :=
  '(offsets, integrator) <- Integrate._get_offsets fuel (_integrator self) samples ;;
  Done (offsets, set_integrator self integrator).

(** The sums and counts of a frame, one row per output sample and one column
    per phase bin. *)
Definition buffers : Type := (list (list Q) * list (list Z))%type.

Definition zeros (self : t) : buffers :=
  (repeat (repeat 0%Q (n_phase self)) (samples_per_frame self),
   repeat (repeat 0 (n_phase self)) (samples_per_frame self)).

Definition divide (buf : buffers) : list (list fval) :=
  zip_with (zip_with fdiv) (fst buf) (snd buf).

(** The output sample of raw item [i]. *)
Definition sample_index (self : t) (_offsets : list Z) (i : Z) : Z :=
  if Nat.eqb (samples_per_frame self) 1 then 0
  else Z.of_nat (searchsorted_left (tl _offsets) i).

(** The phase bin of raw item [i]. *)
Definition phase_index (self : t) (i : Z) : Z :=
  let phases :=
    phase self (_raw_time self + inject_Z i / Stream.sample_rate (ih self))%Q in
  py_int (np_mod (phases * inject_Z (Z.of_nat (n_phase self)))
                 (inject_Z (Z.of_nat (n_phase self)))).

(** [Fold._integrate] *)
Definition _integrate (self : t) (_offsets : list Z) (item_start item_stop : Z)
    (raw : list Q) (buf : buffers) : outcome buffers :=
  let '(_result, _count) := buf in
  let raw_items := arange item_start item_stop in
  let index := map (fun i => (sample_index self _offsets i, phase_index self i))
                   raw_items in
  _result <- add_at Qplus _result index raw ;;
  _count <- add_at Z.add _count index (map (fun _ => 1) raw_items) ;;
  Done (_result, _count).

Definition _read_frame (fuel : nat) (self : t) (frame_index : nat)
  : outcome (IntegrateBase.frame buffers (list (list fval)) * t) :=
  '(offset0, self) <-
     _get_offsets fuel self (Scalar (Z.of_nat (frame_index * samples_per_frame self))) ;;
  match offset0 with
  | Scalar offset0 =>
      let self := set_ih self (Stream.seek (ih self) offset0) in
      let self := set_raw_time self (Stream.time (ih self)) in
      IntegrateBase._read_frame ih set_ih average samples_per_frame
        _get_offsets zeros _integrate divide fuel self frame_index
  | Array _ => Raised ValueError
  end.

End Fold.

(* ------------------------------------------------------------------ *)
(** * Stack *)

(** The rows of [a.reshape((n_rows, n_cols))]. *)
Fixpoint rows {A : Type} (n_rows n_cols : nat) (a : list A) : list (list A) :=
  match n_rows with
  | O => []
  | S n => firstn n_cols a :: rows n n_cols (skipn n_cols a)
  end.

(** [a.reshape((n_rows, n_cols))]; the sizes have to agree. *)
Definition reshape {A : Type} (n_rows n_cols : nat) (a : list A)
  : outcome (list (list A)) :=
  if Nat.eqb (length a) (n_rows * n_cols) then Done (rows n_rows n_cols a)
  else Raised ValueError.

Module Stack.

Record t : Type := mk {
  ih : Integrate.t;
  _n_phase : nat;
  samples_per_frame : nat;
  shape0 : Z
}.

Definition set_ih (self : t) (phased : Integrate.t) : t :=
  mk phased (_n_phase self) (samples_per_frame self) (shape0 self).

(** [Stack.__init__] *)
Definition init (ih : Stream.t) (n_phase : nat) (phase : Q -> Q)
    (average : bool) (samples_per_frame : nat) : outcome t :=
  phased <- Integrate.init ih
              (StepQuantity (1 / inject_Z (Z.of_nat n_phase))%Q) (Some phase)
              average (samples_per_frame * n_phase) ;;
  Done (mk phased n_phase samples_per_frame
           (Integrate.shape0 phased / Z.of_nat n_phase)).

(** The frames [Stack] returns: profiles of [n_phase] bins. *)
Definition profiles : Type :=
  output (list (list Q) * list (list Z)) (list (list fval)).

(** [out.reshape((self.samples_per_frame,) + self.sample_shape)] *)
Definition reshape_out (self : t) (out : output IntegrateBase.buffers (list fval))
  : outcome profiles :=
  match out with
  | Averaged a =>
      a <- reshape (samples_per_frame self) (_n_phase self) a ;;
      Done (Averaged a)
  | Structured (d, c) =>
      d <- reshape (samples_per_frame self) (_n_phase self) d ;;
      c <- reshape (samples_per_frame self) (_n_phase self) c ;;
      Done (Structured (d, c))
  end.

(** [Stack._read_frame] *)
Definition _read_frame (fuel : nat) (self : t) (frame_index : nat)
  : outcome (profiles * t) :=
  '(frame, phased) <- Integrate._read_frame fuel (ih self) frame_index ;;
  out <- reshape_out self (IntegrateBase.out frame) ;;
  Done (out, set_ih self phased).

(** [Stack.stop_time] *)
Definition stop_time (fuel : nat) (self : t) : outcome (Q * t) :=
  '(time, phased) <- Integrate.stop_time fuel (ih self) ;;
  Done (time, set_ih self phased).

End Stack.


(* ------------------------------------------------------------------ *)
(** * Notions used to state the properties *)

(** The phase at offset [o], counted in units of the mean number of input
    samples per output sample: the scale on which step corrections are
    rounded. *)
Definition scaled_phase (self : Integrate.t) (f : Q -> Q) (o : Z) : Q :=
  (f (Stream.time_at (Integrate.ih self) o) * Integrate.sample_rate self
   * Integrate._ih_mean_sample_per_sample self)%Q.

(** The local variable [offsets] as an array of [n] elements. *)
Definition offsets_list (offsets : pyarg) (n : nat) : list Z :=
  match offsets with
  | Scalar o => repeat o n
  | Array l => l
  end.

(** The corrections after one turn of the loop, index by index: a zero
    correction stays, a pending one is recomputed at the new candidate. *)
Fixpoint next_check (self : Integrate.t) (f : Q -> Q) (phase : list Q)
    (offsets check : list Z) : list Z :=
  match phase, offsets, check with
  | p :: phase', o :: offsets', c :: check' =>
      (if c =? 0 then c
       else Integrate.correction self p (f (Stream.time_at (Integrate.ih self) o)))
      :: next_check self f phase' offsets' check'
  | _, _, _ => []
  end.

(** An index with target phase [p], candidate offset [o] and pending
    correction [c] has a zero correction after at most [n] turns. *)
Fixpoint settles (n : nat) (self : Integrate.t) (f : Q -> Q) (p : Q) (o c : Z)
  : Prop :=
  c = 0 \/
  match n with
  | O => False
  | S n' =>
      settles n' self f p (o + c)
        (Integrate.correction self p
           (f (Stream.time_at (Integrate.ih self) (o + c))))
  end.

Fixpoint all_settle (n : nat) (self : Integrate.t) (f : Q -> Q)
    (phase : list Q) (offsets check : list Z) : Prop :=
  match phase, offsets, check with
  | [], [], [] => True
  | p :: phase', o :: offsets', c :: check' =>
      settles n self f p o c /\ all_settle n self f phase' offsets' check'
  | _, _, _ => False
  end.

(** [offsets[i] <= offsets[i+1]] for all [i]. *)
Fixpoint nondecreasing (l : list Z) : Prop :=
  match l with
  | x :: ((y :: _) as l') => x <= y /\ nondecreasing l'
  | _ => True
  end.

(** [x] clipped to the interval from [lo] to [hi]. *)
Definition clip (lo hi x : Z) : Z := Z.max lo (Z.min hi x).

(** The number of samples of the slice from [item_start] to [item_stop] in
    each bin: the distance of the clipped edges. *)
Definition overlap (offsets : list Z) (item_start item_stop : Z) : list Z :=
  diff (map (clip item_start item_stop) offsets).

(** The frames with the given indices, read one after the other. *)
Fixpoint read_frames (fuel : nat) (self : Integrate.t) (frames : list nat)
  : outcome (list (IntegrateBase.frame IntegrateBase.buffers (list fval))
             * Integrate.t) :=
  match frames with
  | [] => Done ([], self)
  | frame_index :: frames' =>
      '(frame, self) <- Integrate._read_frame fuel self frame_index ;;
      '(rest, self) <- read_frames fuel self frames' ;;
      Done (frame :: rest, self)
  end.

(** The count buffer of a frame. *)
Definition counts (frame : IntegrateBase.frame IntegrateBase.buffers (list fval))
  : list Z :=
  snd (IntegrateBase.acc frame).

(** The sum buffer of a frame. *)
Definition sums (frame : IntegrateBase.frame IntegrateBase.buffers (list fval))
  : list Q :=
  fst (IntegrateBase.acc frame).

(** The offsets of the edges of a frame in fixed-rate mode. *)
Definition fixed_edges (self : Integrate.t) (frame_index : nat) : list Z :=
  map (Integrate.fixed_offset self)
      (atleast_1d
         (IntegrateBase.frame_samples Integrate.samples_per_frame self frame_index)).

(** What [np.add.at] has to add to the element at ([r], [c]): the values
    whose index pair is ([r], [c]), every one of them. *)
Fixpoint tally {A : Type} (add : A -> A -> A) (zero : A)
    (index : list (Z * Z)) (vals : list A) (r c : nat) : A :=
  match index, vals with
  | (r', c') :: index', v :: vals' =>
      if (r' =? Z.of_nat r) && (c' =? Z.of_nat c)
      then add v (tally add zero index' vals' r c)
      else tally add zero index' vals' r c
  | _, _ => zero
  end.

(** An array of [n_rows] rows of [n_cols] elements. *)
Definition rectangular {A : Type} (n_rows n_cols : nat) (a : list (list A)) : Prop :=
  length a = n_rows /\ Forall (fun row => length row = n_cols) a.

(** The fractional part of a phase. *)
Definition fractional (x : Q) : Q := x - inject_Z (Qfloor x).

(** Raw item [i] is added to output sample [r], phase bin [p]. *)
Definition lands (self : Fold.t) (_offsets : list Z) (r p : nat) (i : Z) : bool :=
  (Fold.sample_index self _offsets i =? Z.of_nat r)
  && (Fold.phase_index self i =? Z.of_nat p).

(** The values of the items that satisfy [sel]. *)
Fixpoint picked (sel : Z -> bool) (items : list Z) (raw : list Q) : list Q :=
  match items, raw with
  | i :: items', v :: raw' =>
      if sel i then v :: picked sel items' raw' else picked sel items' raw'
  | _, _ => []
  end.

(** [r] holds the elements of [a], row after row, [n_cols] to a row. *)
Definition rows_of {A : Type} (n_rows n_cols : nat) (a : list A)
    (r : list (list A)) : Prop :=
  length r = n_rows /\ Forall (fun row => length row = n_cols) r /\ concat r = a.

(** [p] is the frame [out] of the composed [Integrate], every [n_cols]
    consecutive bins forming one profile. *)
Definition profiles_of (n_rows n_cols : nat)
    (out : output IntegrateBase.buffers (list fval)) (p : Stack.profiles) : Prop :=
  match out, p with
  | Averaged a, Averaged r => rows_of n_rows n_cols a r
  | Structured (d, c), Structured (rd, rc) =>
      rows_of n_rows n_cols d rd /\ rows_of n_rows n_cols c rc
  | _, _ => False
  end.

(** The step of [Integrate.__init__] as a quantity. *)
Definition step_of (ih : Stream.t) (step : step_arg) : Q :=
  match step with
  | StepNone => (inject_Z (Stream.shape0 ih) / Stream.sample_rate ih)%Q
  | StepIndex n => (inject_Z n / Stream.sample_rate ih)%Q
  | StepQuantity q => q
  end.

(** The task [self] with another value of the [average] flag. *)
Definition with_average (self : Integrate.t) (average : bool) : Integrate.t :=
  Integrate.mk (Integrate.ih self) (Integrate.phase self) average
    (Integrate.samples_per_frame self) (Integrate.shape0 self)
    (Integrate.sample_rate self) (Integrate._start self) (Integrate._step self)
    (Integrate._ih_mean_sample_per_sample self) (Integrate._last_offset self)
    (Integrate._last_phase self).

(** [x] is at most a half away from zero. *)
Definition within_half (x : Q) : Prop := (- (1 # 2) <= x /\ x <= 1 # 2)%Q.

(** Offset [o] answers target phase [p]: the phase at [o] is within half a
    mean input sample of [p]; or [o] is the stored [_last_offset] and it is
    the stored [_last_phase] that is within half a mean input sample of
    [p]. *)
Definition on_target (self : Integrate.t) (f : Q -> Q) (p : Q) (o : Z) : Prop :=
  within_half ((p - f (Stream.time_at (Integrate.ih self) o))
               * Integrate.sample_rate self
               * Integrate._ih_mean_sample_per_sample self)
  \/ (o = Integrate._last_offset self
      /\ within_half ((p - Integrate._last_phase self)
                      * Integrate.sample_rate self
                      * Integrate._ih_mean_sample_per_sample self)).

(** In the loop, the correction [c] pending for candidate [o] is the one
    computed at [o], or [o] is still the stored offset and [c] the initial
    correction. *)
Definition tracking (self : Integrate.t) (f : Q -> Q) (p : Q) (o c : Z) : Prop :=
  c = Integrate.correction self p (f (Stream.time_at (Integrate.ih self) o))
  \/ (o = Integrate._last_offset self
      /\ c = Integrate.correction self p (Integrate._last_phase self)).

Fixpoint all_tracking (self : Integrate.t) (f : Q -> Q)
    (phase : list Q) (offsets check : list Z) : Prop :=
  match phase, offsets, check with
  | [], [], [] => True
  | p :: phase', o :: offsets', c :: check' =>
      tracking self f p o c /\ all_tracking self f phase' offsets' check'
  | _, _, _ => False
  end.

(** The sum of all elements of a two-dimensional count array. *)
Definition total (a : list (list Z)) : Z := Zsum (map Zsum a).

(** A [Fold] at another position of its stream and with another recorded
    frame start time. *)
Definition fold_at (self : Fold.t) (pos : Z) (time : Q) : Fold.t :=
  Fold.set_raw_time (Fold.set_ih self (Stream.seek (Fold.ih self) pos)) time.

(** [offsets[i] < offsets[i+1]] for all [i]: no bin is empty. *)
Definition increasing (l : list Z) : Prop :=
  forall j, (S j < length l)%nat -> nth j l 0 < nth (S j) l 0.

(** The sum of the first [k] samples of [source]. *)
Definition prefix (source : list Q) (k : Z) : Q :=
  Qsum (firstn (Z.to_nat k) source).

(** The samples of the stream from position [lo] up to position [hi]. *)
Definition samples_between (ih : Stream.t) (lo hi : Z) : list Q :=
  py_slice (Stream.data ih) (Z.to_nat lo) (Z.to_nat hi).

(** The input samples of output sample [k] in fixed-rate mode: the samples
    of the stream from the offset of [k] up to the offset of [k + 1]. *)
Definition bin_samples (self : Integrate.t) (k : nat) : list Q :=
  samples_between (Integrate.ih self)
    (Integrate.fixed_offset self (Z.of_nat k))
    (Integrate.fixed_offset self (Z.of_nat (S k))).

(** The mean of the values of [l]. *)
Definition mean (l : list Q) : Q := (Qsum l / inject_Z (Z.of_nat (length l)))%Q.

(** The time span of the stream. *)
Definition duration (ih : Stream.t) : Q :=
  (Stream.stop_time ih - Stream.start_time ih)%Q.

(** The number of cycles the phase [f] advances over the stream. *)
Definition cycles (ih : Stream.t) (f : Q -> Q) : Q :=
  (f (Stream.stop_time ih) - f (Stream.start_time ih))%Q.
(* ------------------------------------------------------------------ *)
(** * Concrete streams and tasks used in the examples *)

(** A stream of ten samples at unit rate, read in frames of four. *)
Definition ten_samples : Stream.t :=
  Stream.mk (map inject_Z [1; 2; 3; 4; 5; 6; 7; 8; 9; 10]) 1 0 0 (Stream.framed 4).

(** [Integrate(ten_samples, 3)] *)
Definition ten_by_three : Integrate.t :=
  Integrate.mk ten_samples None true 1 3 (1 / (3 / 1)) 0 (3 / 1)
    (inject_Z 10 / inject_Z 3) 0 0.


(** [n] samples with the values [1], [2], ..., at unit rate from time [0],
    read in frames of four. *)
Definition ramp (n : nat) : Stream.t :=
  Stream.mk (map (fun k => inject_Z (Z.of_nat k)) (seq 1 n)) 1 0 0 (Stream.framed 4).

(** A phase that advances by [nu] cycles per unit of time. *)
Definition linear_phase (nu t : Q) : Q := nu * t.

(** [Integrate(ramp 32, cycle/3, phase, samples_per_frame=2)] for a pulsar of
    one cycle per ten samples. *)
Definition thirds : Integrate.t :=
  Integrate.mk (ramp 32) (Some (linear_phase (1 # 10))) true 2 9 (1 / (1 # 3))
    (linear_phase (1 # 10) 0) (1 # 3) (inject_Z 32 / inject_Z 9)
    0 (linear_phase (1 # 10) 0).

(** [Integrate(ramp 100, cycle/4, phase)] for a pulsar of one cycle per
    thirty samples: 13 whole output samples, a mean of 100/13 input samples
    per output sample. *)
Definition quarters : Integrate.t :=
  Integrate.mk (ramp 100) (Some (linear_phase (1 # 30))) true 1 13 (1 / (1 # 4))
    (linear_phase (1 # 30) 0) (1 # 4) (inject_Z 100 / inject_Z 13)
    0 (linear_phase (1 # 30) 0).

(** [Integrate(ramp 100, cycle/2, phase)] for a pulsar of one cycle per ten
    samples: 20 output samples of 5 input samples each. *)
Definition halves : Integrate.t :=
  Integrate.mk (ramp 100) (Some (linear_phase (1 # 10))) true 1 20 (1 / (1 # 2))
    (linear_phase (1 # 10) 0) (1 # 2) (inject_Z 100 / inject_Z 20)
    0 (linear_phase (1 # 10) 0).

(** A phase function with a glitch: the identity, except at times 1 and 3. *)
Definition glitch (t : Q) : Q :=
  if Qeq_bool t 1 then - (1) else if Qeq_bool t 3 then 1 else t.

(** [Integrate(ramp 10, 1 cycle, glitch, samples_per_frame=2)] *)
Definition glitchy : Integrate.t :=
  Integrate.mk (ramp 10) (Some glitch) true 2 10 (1 / 1) (glitch 0) 1
    (inject_Z 10 / inject_Z 10) 0 (glitch 0).

(** [Fold(ih, 4, phase)] over a stream of five samples, for a phase that
    stays at 0.6 cycles: every sample belongs to phase bin 2. *)
Definition five_folded : Fold.t :=
  Fold.mk (ramp 5) 4 (fun _ => 3 # 5) true 1
    (Integrate.mk (ramp 5) None true 1 1 (1 / (inject_Z 5 / 1)) 0 (inject_Z 5 / 1)
       (inject_Z 5 / inject_Z 1) 0 0)
    0.

(** [Stack(ramp 32, 3, phase)] for a pulsar of one cycle per ten samples. *)
Definition stacked : Stack.t :=
  Stack.mk
    (Integrate.mk (ramp 32) (Some (linear_phase (1 # 10))) true 3 9
       (1 / (1 / inject_Z 3)) (linear_phase (1 # 10) 0) (1 / inject_Z 3)
       (inject_Z 32 / inject_Z 9) 0 (linear_phase (1 # 10) 0))
    3 1 3.

(** Three samples at unit rate; the reader delivers a request in one piece. *)
Definition three_samples : Stream.t :=
  Stream.mk [1; 2; 3]%Q 1 0 0 (fun _ count => [count]).

(** [Integrate(three_samples, step, samples_per_frame=6)] for a step of half
    a sample: the edges of the six bins are [0; 0; 1; 2; 2; 2; 3]. *)
Definition half_steps : Integrate.t :=
  Integrate.mk three_samples None true 6 6 (1 / (1 # 2)) 0 (1 # 2)
    (inject_Z 3 / inject_Z 6) 0 0.

(** [Fold(ramp 10, 4, phase, step=5, samples_per_frame=2)] for a pulsar of
    one cycle per ten samples: two output samples of five input samples. *)
Definition two_rows : Fold.t :=
  Fold.mk (ramp 10) 4 (linear_phase (1 # 10)) true 2
    (Integrate.mk (ramp 10) None true 2 2 (1 / (inject_Z 5 / 1)) 0 (inject_Z 5 / 1)
       (inject_Z 10 / inject_Z 2) 0 0)
    0.
(* ================================================================== *)
(** * Properties *)

(** ** Rounding *)

Lemma inject_Z_succ (n : Z) : (inject_Z (n + 1) == inject_Z n + 1)%Q.
Proof. rewrite inject_Z_plus. reflexivity. Qed.

Lemma Qfloor_bounds (x : Q) :
  (inject_Z (Qfloor x) <= x /\ x < inject_Z (Qfloor x) + 1)%Q.
Proof.
  split; [apply Qfloor_le |].
  rewrite <- inject_Z_succ. apply Qlt_floor.
Qed.

#[global] Instance np_round_wd : Proper (Qeq ==> eq) np_round.
Proof.
  intros x y Hxy. unfold np_round.
  rewrite (Qfloor_comp _ _ Hxy).
  assert (E : (x - inject_Z (Qfloor y) == y - inject_Z (Qfloor y))%Q)
    by (rewrite Hxy; reflexivity).
  rewrite (Qcompare_comp _ _ E _ _ (Qeq_refl (1 # 2))). reflexivity.
Qed.

(** The rounded value is within a half of the argument. *)
Lemma np_round_bounds (x : Q) :
  (inject_Z (np_round x) - (1 # 2) <= x /\ x <= inject_Z (np_round x) + (1 # 2))%Q.
Proof.
  unfold np_round. destruct (Qfloor_bounds x) as [Hlo Hhi].
  set (f := Qfloor x) in *.
  destruct (Qcompare_spec (x - inject_Z f) (1 # 2)) as [E | L | G].
  - destruct (Z.even f); [| rewrite inject_Z_succ]; lra.
  - lra.
  - rewrite inject_Z_succ. lra.
Qed.

Lemma inject_Z_le_inv (a b : Z) : (inject_Z a <= inject_Z b)%Q -> a <= b.
Proof. intros H. rewrite Zle_Qle. exact H. Qed.

Lemma inject_Z_lt_inv (a b : Z) : (inject_Z a < inject_Z b)%Q -> a < b.
Proof. intros H. rewrite Zlt_Qlt. exact H. Qed.

Lemma np_round_mono (x y : Q) : (x <= y)%Q -> np_round x <= np_round y.
Proof.
  intros Hxy.
  destruct (np_round_bounds x) as [Hx1 Hx2].
  destruct (np_round_bounds y) as [Hy1 Hy2].
  assert (H : np_round x <= np_round y + 1).
  { apply inject_Z_le_inv. rewrite inject_Z_succ. lra. }
  destruct (Z.eq_dec (np_round x) (np_round y + 1)) as [E | NE]; [| lia].
  assert (Exy : (x == y)%Q).
  { rewrite E, inject_Z_succ in Hx1. lra. }
  rewrite Exy in E. lia.
Qed.

Lemma np_round_inject_Z (n : Z) : np_round (inject_Z n) = n.
Proof.
  unfold np_round. rewrite Qfloor_Z.
  destruct (Qcompare_spec (inject_Z n - inject_Z n) (1 # 2)) as [E | L | G];
    try lra; reflexivity.
Qed.

(** A value within a half of zero rounds to zero, both ties included. *)
Lemma np_round_zero (x : Q) :
  (- (1 # 2) <= x)%Q -> (x <= 1 # 2)%Q -> np_round x = 0.
Proof.
  intros Hlo Hhi.
  assert (Hm : np_round (- (1 # 2)) = 0) by reflexivity.
  assert (Hp : np_round (1 # 2) = 0) by reflexivity.
  pose proof (np_round_mono _ _ Hlo) as H1.
  pose proof (np_round_mono _ _ Hhi) as H2.
  lia.
Qed.

Lemma np_round_zero_inv (x : Q) :
  np_round x = 0 -> (- (1 # 2) <= x /\ x <= 1 # 2)%Q.
Proof.
  intros H. pose proof (np_round_bounds x) as B. rewrite H in B.
  change (inject_Z 0) with 0%Q in B. lra.
Qed.

Lemma np_round_nonneg (x : Q) : (- (1 # 2) <= x)%Q -> 0 <= np_round x.
Proof.
  intros H. change 0 with (np_round (- (1 # 2))). now apply np_round_mono.
Qed.

Lemma np_round_nonpos (x : Q) : (x <= 1 # 2)%Q -> np_round x <= 0.
Proof.
  intros H. change 0 with (np_round (1 # 2)). now apply np_round_mono.
Qed.

(** ** The offset resolver, fixed-rate mode *)


Lemma ten_by_three_init :
  Integrate.init ten_samples (StepIndex 3) None true 1 = Done ten_by_three.
Proof. reflexivity. Qed.


(** ** The offset resolver, phase-driven mode *)

Lemma thirds_init :
  Integrate.init (ramp 32) (StepQuantity (1 # 3)) (Some (linear_phase (1 # 10)))
    true 2 = Done thirds.
Proof. reflexivity. Qed.

Lemma no_nonzero (check : list Z) :
  Forall (fun c => c = 0) check ->
  existsb (fun m => m) (Integrate.nonzero check) = false.
Proof.
  induction 1 as [| c check Hc _ IH]; [reflexivity |].
  subst c. exact IH.
Qed.

(** The loop does not run when no correction is pending. *)
Lemma resolve_settled (fuel : nat) (self : Integrate.t) (f : Q -> Q)
    (phase : list Q) (offsets : pyarg) (check : list Z)
    (ih_phase : option (list Q)) :
  existsb (fun m => m) (Integrate.nonzero check) = false ->
  Integrate.resolve fuel self f phase offsets check ih_phase =
    Done (offsets, ih_phase).
Proof.
  intros H. destruct fuel; cbn [Integrate.resolve]; rewrite H; reflexivity.
Qed.

(** One turn of the loop. *)
Lemma resolve_turn (fuel : nat) (self : Integrate.t) (f : Q -> Q)
    (phase : list Q) (offsets : pyarg) (check : list Z)
    (ih_phase : option (list Q)) :
  existsb (fun m => m) (Integrate.nonzero check) = true ->
  Integrate.resolve (S fuel) self f phase offsets check ih_phase =
    let mask := Integrate.nonzero check in
    let offsets := Integrate.iadd offsets check in
    let ih_phase :=
      map f (map (Stream.time_at (Integrate.ih self)) (mask_select mask offsets)) in
    Integrate.resolve fuel self f phase (Array offsets)
      (mask_assign mask check
         (zip_with (Integrate.correction self) (mask_select mask phase) ih_phase))
      (Some ih_phase).
Proof.
  intros H. cbn [Integrate.resolve]. rewrite H. reflexivity.
Qed.

(** C10.  In phase-driven mode, a call in which every initial correction is
    zero raises: the loop body never runs, [offsets] is still the scalar
    [_last_offset], and [offsets[-1]] fails. *)
Theorem C10_settled_call_raises (fuel : nat) (self : Integrate.t) (f : Q -> Q)
    (samples : pyarg) :
  Integrate.phase self = Some f ->
  Forall (fun index =>
            Integrate.correction self
              (Integrate._start self + inject_Z index / Integrate.sample_rate self)%Q
              (Integrate._last_phase self) = 0)
         (atleast_1d samples) ->
  Integrate._get_offsets fuel self samples = Raised NotSubscriptable.
Proof.
  intros Hphase Hzero. unfold Integrate._get_offsets. rewrite Hphase.
  rewrite resolve_settled; [reflexivity |].
  apply no_nonzero. rewrite !Forall_map. exact Hzero.
Qed.

(** Resolving sample 0 right after construction: the target phase is the
    stored [_last_phase]. *)
Lemma C10_settled_call_raises_witness :
  Integrate._get_offsets 5 thirds (Scalar 0) = Raised NotSubscriptable.
Proof.
  apply (C10_settled_call_raises 5 thirds (linear_phase (1 # 10)) (Scalar 0)).
  - reflexivity.
  - repeat constructor.
Defined.

(** C3, at frame 0 of [thirds].  The call returns the offsets [0; 3; 7].  The
    correction of the last index is zero after the first turn of the loop,
    that of the middle index only after the second, so that the phases
    evaluated last are those of the middle index alone: [_last_offset] is
    [7], and [_last_phase] is the phase at offset [3], not at offset [7]. *)
Example C3_last_phase_of_another_index :
  match Integrate._get_offsets 2 thirds (Array [0; 1; 2]) with
  | Done (offsets, self) =>
      offsets = Array [0; 3; 7]
      /\ Integrate._last_offset self = 7
      /\ (Integrate._last_phase self
          == linear_phase (1 # 10) (Stream.time_at (Integrate.ih self) 3))%Q
      /\ ~ (Integrate._last_phase self
            == linear_phase (1 # 10)
                 (Stream.time_at (Integrate.ih self) (Integrate._last_offset self)))%Q
  | _ => False
  end.
Proof.
  vm_compute. repeat split; discriminate.
Qed.

(** *** The loop, index by index *)

Lemma iadd_offsets_list (offsets : pyarg) (check : list Z) :
  Integrate.iadd offsets check =
    zip_with Z.add (offsets_list offsets (length check)) check.
Proof.
  destruct offsets as [o | l]; [| reflexivity].
  cbn [Integrate.iadd offsets_list].
  induction check as [| c check IH]; [reflexivity |].
  cbn. now rewrite IH.
Qed.

Lemma next_check_turn (self : Integrate.t) (f : Q -> Q) :
  forall (check : list Z) (phase : list Q) (offsets : list Z),
    length phase = length check ->
    length offsets = length check ->
    mask_assign (Integrate.nonzero check) check
      (zip_with (Integrate.correction self)
         (mask_select (Integrate.nonzero check) phase)
         (map f (map (Stream.time_at (Integrate.ih self))
                     (mask_select (Integrate.nonzero check) offsets)))) =
    next_check self f phase offsets check.
Proof.
  induction check as [| c check IH]; intros [| p phase] [| o offsets] Hp Ho;
    try discriminate; [reflexivity |].
  injection Hp as Hp. injection Ho as Ho.
  cbn [Integrate.nonzero map mask_select mask_assign next_check].
  destruct (c =? 0) eqn:Hc; cbn [negb].
  - f_equal. apply (IH phase offsets Hp Ho).
  - cbn [map zip_with]. f_equal. apply (IH phase offsets Hp Ho).
Qed.

Lemma all_settle_lengths (n : nat) (self : Integrate.t) (f : Q -> Q) :
  forall phase offsets check,
    all_settle n self f phase offsets check ->
    length phase = length check /\ length offsets = length check.
Proof.
  induction phase as [| p phase IH]; intros [| o offsets] [| c check] H;
    cbn in H; try contradiction; [split; reflexivity |].
  destruct H as [_ H]. destruct (IH _ _ H) as [E1 E2].
  cbn. split; congruence.
Qed.

Lemma settles_zero (n : nat) (self : Integrate.t) (f : Q -> Q) (p : Q) (o : Z) :
  settles n self f p o 0.
Proof. destruct n; left; reflexivity. Qed.

Lemma settles_more (self : Integrate.t) (f : Q -> Q) :
  forall n m p o c, (n <= m)%nat -> settles n self f p o c -> settles m self f p o c.
Proof.
  induction n as [| n IH]; intros m p o c Hnm H.
  - destruct H as [H | []]. subst c. apply settles_zero.
  - destruct m as [| m]; [lia |].
    destruct H as [H | H]; [left; exact H | right].
    apply (IH m); [lia | exact H].
Qed.

Lemma all_settle_more (self : Integrate.t) (f : Q -> Q) (n m : nat) :
  (n <= m)%nat ->
  forall phase offsets check,
    all_settle n self f phase offsets check ->
    all_settle m self f phase offsets check.
Proof.
  intros Hnm. induction phase as [| p phase IH]; intros [| o offsets] [| c check] H;
    cbn in *; try contradiction; [exact I |].
  destruct H as [H1 H2]. split; [eapply settles_more; eassumption | now apply IH].
Qed.

Lemma all_settle_none (self : Integrate.t) (f : Q -> Q) :
  forall phase offsets check,
    all_settle 0 self f phase offsets check ->
    existsb (fun m => m) (Integrate.nonzero check) = false.
Proof.
  induction phase as [| p phase IH]; intros [| o offsets] [| c check] H;
    cbn in H; try contradiction; [reflexivity |].
  destruct H as [[Hc | []] H]. subst c. cbn. now apply (IH offsets).
Qed.

Lemma all_settle_turn (self : Integrate.t) (f : Q -> Q) (n : nat) :
  forall phase offsets check,
    all_settle (S n) self f phase offsets check ->
    all_settle n self f phase (zip_with Z.add offsets check)
      (next_check self f phase (zip_with Z.add offsets check) check).
Proof.
  induction phase as [| p phase IH]; intros [| o offsets] [| c check] H;
    cbn [all_settle] in H; try contradiction; [exact I |].
  destruct H as [H1 H2].
  cbn [zip_with next_check all_settle]. split; [| now apply IH].
  destruct (Z.eqb_spec c 0) as [Hc | Hc].
  - subst c. apply settles_zero.
  - destruct H1 as [H1 | H1]; [contradiction | exact H1].
Qed.

(** When every index settles within [n] turns, the loop ends within [n]
    turns, with a result that more fuel does not change. *)
Lemma resolve_all_settle (self : Integrate.t) (f : Q -> Q) :
  forall n phase offsets check ih_phase,
    all_settle n self f phase (offsets_list offsets (length check)) check ->
    exists r, forall fuel, (n <= fuel)%nat ->
      Integrate.resolve fuel self f phase offsets check ih_phase = Done r.
Proof.
  induction n as [| n IH]; intros phase offsets check ih_phase H.
  - exists (offsets, ih_phase). intros fuel _.
    apply resolve_settled. eapply all_settle_none; eassumption.
  - destruct (existsb (fun m => m) (Integrate.nonzero check)) eqn:Hany.
    + pose proof (all_settle_lengths _ _ _ _ _ _ H) as [Lp Lo].
      pose proof (all_settle_turn _ _ _ _ _ _ H) as H'.
      rewrite <- iadd_offsets_list in H'.
      rewrite <- (next_check_turn self f check phase) in H'; [| exact Lp |].
      2:{ rewrite iadd_offsets_list.
          clear - Lo. revert Lo. generalize (offsets_list offsets (length check)).
          induction check as [| c check IHc]; intros [| o l] Hl;
            try discriminate; [reflexivity |].
          cbn. f_equal. apply IHc. now injection Hl. }
      destruct (IH phase (Array (Integrate.iadd offsets check)) _
                  (Some (map f (map (Stream.time_at (Integrate.ih self))
                            (mask_select (Integrate.nonzero check)
                               (Integrate.iadd offsets check)))))
                  ltac:(cbn [offsets_list]; exact H')) as [r Hr].
      exists r. intros [| fuel] Hfuel; [lia |].
      rewrite (resolve_turn _ _ _ _ _ _ _ Hany). cbv zeta.
      apply Hr. lia.
    + exists (offsets, ih_phase). intros fuel _. now apply resolve_settled.
Qed.

(** *** Phase functions that advance no faster than the mean rate *)

Lemma archimedes (x lo : Q) :
  (0 < lo)%Q -> exists N : nat, (x <= inject_Z (Z.of_nat N) * lo)%Q.
Proof.
  intros Hlo.
  destruct (Qlt_le_dec 0 x) as [Hpos | Hneg].
  - exists (Z.to_nat (Qceiling (x / lo))).
    assert (Hq : (0 < x / lo)%Q) by (apply Qlt_shift_div_l; lra).
    pose proof (Qle_ceiling (x / lo)) as Hc.
    assert (H0 : 0 <= Qceiling (x / lo)).
    { apply inject_Z_le_inv. change (inject_Z 0) with 0%Q. lra. }
    rewrite Z2Nat.id by exact H0.
    assert (E : (x == x / lo * lo)%Q) by (field; lra).
    rewrite E at 1. apply Qmult_le_compat_r; lra.
  - exists O. change (inject_Z (Z.of_nat 0)) with 0%Q. lra.
Qed.

Section SlopeBound.

Variable self : Integrate.t.
Variable f : Q -> Q.
Variable lo : Q.
Hypothesis lo_pos : (0 < lo)%Q.
Hypothesis slope :
  forall o : Z,
    (lo <= scaled_phase self f (o + 1) - scaled_phase self f o
     /\ scaled_phase self f (o + 1) - scaled_phase self f o <= 1)%Q.

(** The correction pending at candidate [o] for target phase [p], before
    rounding. *)
Let residual (p : Q) (o : Z) : Q :=
  ((p - f (Stream.time_at (Integrate.ih self) o)) * Integrate.sample_rate self
   * Integrate._ih_mean_sample_per_sample self)%Q.

Lemma residual_shift (p : Q) (o o' : Z) :
  (residual p o' ==
   residual p o - (scaled_phase self f o' - scaled_phase self f o))%Q.
Proof. unfold residual, scaled_phase. ring. Qed.

Lemma slope_many (k : nat) (o : Z) :
  (inject_Z (Z.of_nat k) * lo
     <= scaled_phase self f (o + Z.of_nat k) - scaled_phase self f o
   /\ scaled_phase self f (o + Z.of_nat k) - scaled_phase self f o
     <= inject_Z (Z.of_nat k))%Q.
Proof.
  induction k as [| k IH].
  - rewrite Z.add_0_r. change (inject_Z (Z.of_nat 0)) with 0%Q. lra.
  - replace (o + Z.of_nat (S k)) with (o + Z.of_nat k + 1) by lia.
    replace (Z.of_nat (S k)) with (Z.of_nat k + 1) by lia.
    rewrite inject_Z_succ.
    pose proof (slope (o + Z.of_nat k)) as S1. lra.
Qed.

Lemma settles_forward :
  forall (N : nat) (p : Q) (o : Z),
    (- (1 # 2) <= residual p o)%Q ->
    (residual p o <= (1 # 2) + inject_Z (Z.of_nat N) * lo)%Q ->
    settles N self f p o (np_round (residual p o)).
Proof.
  induction N as [| N IH]; intros p o Hlow Hhigh.
  - left. apply np_round_zero; [exact Hlow |].
    change (inject_Z (Z.of_nat 0)) with 0%Q in Hhigh. lra.
  - destruct (Z.eq_dec (np_round (residual p o)) 0) as [E | NE]; [left; exact E |].
    right. fold (residual p (o + np_round (residual p o))).
    change (Integrate.correction self p
              (f (Stream.time_at (Integrate.ih self) (o + np_round (residual p o)))))
      with (np_round (residual p (o + np_round (residual p o)))).
    pose proof (np_round_nonneg _ Hlow) as Hk.
    pose proof (np_round_bounds (residual p o)) as [B1 B2].
    set (k := np_round (residual p o)) in *.
    pose proof (slope_many (Z.to_nat k) o) as [S1 S2].
    rewrite Z2Nat.id in S1, S2 by lia.
    pose proof (residual_shift p o (o + k)) as Sh.
    assert (K1 : (1 <= inject_Z k)%Q).
    { change 1%Q with (inject_Z 1). rewrite <- Zle_Qle. lia. }
    replace (Z.of_nat (S N)) with (Z.of_nat N + 1) in Hhigh by lia.
    rewrite inject_Z_succ in Hhigh.
    apply IH.
    + lra.
    + assert (lo <= inject_Z k * lo)%Q by nra. lra.
Qed.

Lemma settles_backward :
  forall (N : nat) (p : Q) (o : Z),
    (- (1 # 2) - inject_Z (Z.of_nat N) * lo <= residual p o)%Q ->
    (residual p o <= 1 # 2)%Q ->
    settles N self f p o (np_round (residual p o)).
Proof.
  induction N as [| N IH]; intros p o Hlow Hhigh.
  - left. apply np_round_zero; [| exact Hhigh].
    change (inject_Z (Z.of_nat 0)) with 0%Q in Hlow. lra.
  - destruct (Z.eq_dec (np_round (residual p o)) 0) as [E | NE]; [left; exact E |].
    right.
    change (Integrate.correction self p
              (f (Stream.time_at (Integrate.ih self) (o + np_round (residual p o)))))
      with (np_round (residual p (o + np_round (residual p o)))).
    pose proof (np_round_nonpos _ Hhigh) as Hk.
    pose proof (np_round_bounds (residual p o)) as [B1 B2].
    set (k := np_round (residual p o)) in *.
    pose proof (slope_many (Z.to_nat (- k)) (o + k)) as [S1 S2].
    rewrite Z2Nat.id in S1, S2 by lia.
    replace (o + k + - k) with o in S1, S2 by lia.
    pose proof (residual_shift p o (o + k)) as Sh.
    assert (K1 : (inject_Z k <= - (1))%Q).
    { change (- (1))%Q with (inject_Z (- 1)). rewrite <- Zle_Qle. lia. }
    assert (K2 : (inject_Z (- k) == - inject_Z k)%Q)
      by (rewrite inject_Z_opp; reflexivity).
    replace (Z.of_nat (S N)) with (Z.of_nat N + 1) in Hlow by lia.
    rewrite inject_Z_succ in Hlow.
    apply IH.
    + assert (lo <= inject_Z (- k) * lo)%Q by nra. lra.
    + lra.
Qed.

(** Every index settles. *)
Lemma settles_eventually (p : Q) (o c : Z) :
  exists n, settles n self f p o c.
Proof.
  destruct (Z.eq_dec c 0) as [E | NE].
  - exists O. left. exact E.
  - destruct (Qlt_le_dec (residual p (o + c)) (- (1 # 2))) as [Hneg | Hpos].
    + destruct (archimedes (- residual p (o + c)) lo lo_pos) as [N HN].
      exists (S N). right. apply settles_backward; lra.
    + destruct (archimedes (residual p (o + c)) lo lo_pos) as [N HN].
      exists (S N). right. apply settles_forward; lra.
Qed.

Lemma all_settle_eventually :
  forall phase offsets check,
    length phase = length check ->
    length offsets = length check ->
    exists n, all_settle n self f phase offsets check.
Proof.
  induction phase as [| p phase IH]; intros [| o offsets] [| c check] Hp Ho;
    try discriminate.
  - exists O. exact I.
  - injection Hp as Hp. injection Ho as Ho.
    destruct (IH offsets check Hp Ho) as [n Hn].
    destruct (settles_eventually p o c) as [m Hm].
    exists (Nat.max n m). cbn [all_settle]. split.
    + apply (settles_more self f m); [lia | exact Hm].
    + apply (all_settle_more self f n); [lia | exact Hn].
Qed.

End SlopeBound.


Lemma halves_init :
  Integrate.init (ramp 100) (StepQuantity (1 # 2)) (Some (linear_phase (1 # 10)))
    true 1 = Done halves.
Proof. reflexivity. Qed.

Lemma halves_slope (o : Z) :
  (1 <= scaled_phase halves (linear_phase (1 # 10)) (o + 1)
        - scaled_phase halves (linear_phase (1 # 10)) o
   /\ scaled_phase halves (linear_phase (1 # 10)) (o + 1)
        - scaled_phase halves (linear_phase (1 # 10)) o <= 1)%Q.
Proof.
  unfold scaled_phase, linear_phase, Stream.time_at. cbn.
  rewrite inject_Z_succ.
  assert (E : ((1 # 10) * (0 + (inject_Z o + 1) / 1) * (1 / (1 # 2))
               * (inject_Z 100 / inject_Z 20)
               - (1 # 10) * (0 + inject_Z o / 1) * (1 / (1 # 2))
                 * (inject_Z 100 / inject_Z 20) == 1)%Q) by (field_simplify; reflexivity).
  rewrite E. split; apply Qle_refl.
Qed.


Lemma quarters_init :
  Integrate.init (ramp 100) (StepQuantity (1 # 4)) (Some (linear_phase (1 # 30)))
    true 1 = Done quarters.
Proof. reflexivity. Qed.

(** The candidate for output sample 1 of [quarters] moves from offset 8 to
    offset 7 and back, for ever. *)
Lemma quarters_oscillates :
  forall fuel ih_phase,
    Integrate.resolve fuel quarters (linear_phase (1 # 30))
      [(linear_phase (1 # 30) 0 + inject_Z 1 / (1 / (1 # 4)))%Q]
      (Array [8]) [-1] ih_phase = Diverged
    /\ Integrate.resolve fuel quarters (linear_phase (1 # 30))
         [(linear_phase (1 # 30) 0 + inject_Z 1 / (1 / (1 # 4)))%Q]
         (Array [7]) [1] ih_phase = Diverged.
Proof.
  induction fuel as [| fuel IH]; intros ih_phase.
  - split; reflexivity.
  - split; (rewrite resolve_turn by reflexivity; cbv zeta).
    + exact (proj2 (IH _)).
    + exact (proj1 (IH _)).
Qed.


(** ** The offsets of a frame *)

Lemma fixed_offset_mono (self : Integrate.t) (i j : Z) :
  (0 < Integrate.sample_rate self)%Q ->
  (0 < Stream.sample_rate (Integrate.ih self))%Q ->
  i <= j ->
  Integrate.fixed_offset self i <= Integrate.fixed_offset self j.
Proof.
  intros Hrate Hih Hij. unfold Integrate.fixed_offset.
  apply np_round_mono.
  apply Qmult_le_compat_r; [| lra].
  apply Qmult_le_compat_r; [now rewrite <- Zle_Qle |].
  apply Qinv_le_0_compat. lra.
Qed.

Lemma nondecreasing_map (g : Z -> Z) :
  (forall i j, i <= j -> g i <= g j) ->
  forall l, nondecreasing l -> nondecreasing (map g l).
Proof.
  intros Hg. induction l as [| x [| y l] IH]; intros H; cbn; try exact I.
  destruct H as [Hxy H]. split; [now apply Hg | now apply IH].
Qed.

Lemma nondecreasing_arange (base : nat) :
  forall n start,
    nondecreasing (map (fun j => Z.of_nat (base + j)) (seq start n)).
Proof.
  induction n as [| n IH]; intros start; [exact I |].
  destruct n as [| n]; [exact I |].
  specialize (IH (S start)). cbn [seq map] in *.
  split; [lia | exact IH].
Qed.

(** C6, as amended.  The stream is sought to the first offset of the frame,
    whatever the mode; and without a phase function (and with positive
    rates) the offsets of every frame are resolved, one for each of the
    [samples_per_frame + 1] edges, and are non-decreasing. *)
Theorem C6_frame_offsets (fuel : nat) (self : Integrate.t) (frame_index : nat) :
  (forall offsets self',
     Integrate.resolve_and_seek fuel self frame_index = Done (offsets, self') ->
     Stream.tell (Integrate.ih self') = hd 0 offsets)
  /\ (Integrate.phase self = None ->
      (0 < Integrate.sample_rate self)%Q ->
      (0 < Stream.sample_rate (Integrate.ih self))%Q ->
      exists offsets self',
        Integrate.resolve_and_seek fuel self frame_index = Done (offsets, self')
        /\ length offsets = S (Integrate.samples_per_frame self)
        /\ nondecreasing offsets).
Proof.
  split.
  - intros offsets self'.
    unfold Integrate.resolve_and_seek, IntegrateBase.resolve_and_seek.
    destruct (Integrate._get_offsets fuel self _) as [[[o | [| o0 l]] s] | e |];
      cbn [bind]; try discriminate.
    intros H. injection H as <- <-. reflexivity.
  - intros Hphase Hrate Hih.
    unfold Integrate.resolve_and_seek, IntegrateBase.resolve_and_seek.
    unfold Integrate._get_offsets. rewrite Hphase.
    unfold IntegrateBase.frame_samples. cbn [bind pymap].
    rewrite Nat.add_1_r. cbn [seq map].
    eexists. eexists. split; [reflexivity | split].
    + cbn [length]. now rewrite !length_map, length_seq.
    + change (nondecreasing
                (map (Integrate.fixed_offset self)
                   (map (fun j => Z.of_nat
                                    (frame_index * Integrate.samples_per_frame self + j))
                        (seq 0 (S (Integrate.samples_per_frame self)))))).
      apply nondecreasing_map.
      * intros i j. now apply fixed_offset_mono.
      * apply nondecreasing_arange.
Qed.

Lemma C6_frame_offsets_witness :
  Stream.tell
    (Integrate.ih (Integrate.set_ih ten_by_three (Stream.seek ten_samples 3))) = 3
  /\ exists offsets self',
       Integrate.resolve_and_seek 0 ten_by_three 1 = Done (offsets, self')
       /\ length offsets = 2%nat
       /\ nondecreasing offsets.
Proof.
  split.
  - exact (proj1 (C6_frame_offsets 0 ten_by_three 1) [3; 6]
             (Integrate.set_ih ten_by_three (Stream.seek ten_samples 3)) eq_refl).
  - apply (proj2 (C6_frame_offsets 0 ten_by_three 1)); reflexivity.
Defined.

Lemma glitchy_init :
  Integrate.init (ramp 10) (StepQuantity 1) (Some glitch) true 2 = Done glitchy.
Proof. reflexivity. Qed.

(** C6, as stated, fails in phase-driven mode: the offsets resolved for frame
    0 of [glitchy] are [0; 3; 2]. *)
Lemma C6_phase_offsets_decrease :
  exists self',
    Integrate.resolve_and_seek 2 glitchy 0 = Done ([0; 3; 2], self')
    /\ ~ nondecreasing [0; 3; 2].
Proof.
  eexists. split; [vm_compute; reflexivity |].
  cbn. lia.
Qed.

(** ** Arrays *)

Lemma nth_tl {A : Type} (l : list A) (j : nat) (d : A) :
  nth j (tl l) d = nth (S j) l d.
Proof. destruct l; destruct j; reflexivity. Qed.

Lemma length_tl {A : Type} (l : list A) : length (tl l) = pred (length l).
Proof. destruct l; reflexivity. Qed.

Lemma length_removelast {A : Type} (l : list A) :
  length (removelast l) = pred (length l).
Proof. rewrite removelast_firstn_len, length_firstn. lia. Qed.

Lemma nth_removelast {A : Type} (l : list A) (j : nat) (d : A) :
  (j < pred (length l))%nat -> nth j (removelast l) d = nth j l d.
Proof.
  intros H. rewrite removelast_firstn_len, nth_firstn.
  destruct (Nat.ltb_spec j (pred (length l))); [reflexivity | lia].
Qed.

Lemma length_py_slice {A : Type} (l : list A) (a b : nat) :
  length (py_slice l a b) = Nat.min (b - a) (length l - a).
Proof. unfold py_slice. now rewrite length_firstn, length_skipn. Qed.

Lemma nth_py_slice {A : Type} (l : list A) (a b j : nat) (d : A) :
  (j < b - a)%nat -> nth j (py_slice l a b) d = nth (a + j) l d.
Proof.
  intros H. unfold py_slice. rewrite nth_firstn, nth_skipn.
  destruct (Nat.ltb_spec j (b - a)); [reflexivity | lia].
Qed.

Lemma length_diff (l : list Z) : length (diff l) = pred (length l).
Proof.
  induction l as [| x [| y l] IH]; try reflexivity.
  cbn [diff length] in *. now rewrite IH.
Qed.

Lemma nth_diff (l : list Z) :
  forall j, (S j < length l)%nat ->
    nth j (diff l) 0 = nth (S j) l 0 - nth j l 0.
Proof.
  induction l as [| x [| y l] IH]; intros j Hj; cbn [length] in Hj; try lia.
  destruct j as [| j]; [reflexivity |].
  cbn [diff nth]. apply IH. cbn [length]. lia.
Qed.

Lemma length_zip_with {A B C : Type} (g : A -> B -> C) :
  forall a b, length (zip_with g a b) = Nat.min (length a) (length b).
Proof.
  induction a as [| x a IH]; intros [| y b]; cbn; try reflexivity.
  now rewrite IH.
Qed.

Lemma nth_zip_with {A B C : Type} (g : A -> B -> C) (da : A) (db : B) (dc : C) :
  forall a b j, (j < length a)%nat -> (j < length b)%nat ->
    nth j (zip_with g a b) dc = g (nth j a da) (nth j b db).
Proof.
  induction a as [| x a IH]; intros [| y b] j Ha Hb; cbn in *; try lia.
  destruct j as [| j]; [reflexivity |]. apply IH; lia.
Qed.

Lemma nondecreasing_head (x : Z) (l : list Z) :
  nondecreasing (x :: l) ->
  forall j, (j < length l)%nat -> x <= nth j l 0.
Proof.
  revert x. induction l as [| y l IH]; intros x H j Hj; cbn in Hj; [lia |].
  destruct H as [Hxy H]. destruct j as [| j]; [exact Hxy |].
  cbn [nth]. specialize (IH y H j). lia.
Qed.

Lemma nondecreasing_tail (x : Z) (l : list Z) :
  nondecreasing (x :: l) -> nondecreasing l.
Proof. destruct l; [intros; exact I | intros [_ H]; exact H]. Qed.

Lemma nondecreasing_nth (l : list Z) :
  nondecreasing l ->
  forall i j, (i <= j)%nat -> (j < length l)%nat -> nth i l 0 <= nth j l 0.
Proof.
  induction l as [| x l IH]; intros H i j Hij Hj; cbn in Hj; [lia |].
  destruct i as [| i], j as [| j]; try lia.
  - cbn [nth]. apply (nondecreasing_head x l H). lia.
  - cbn [nth]. apply IH; [eapply nondecreasing_tail; eassumption | lia | lia].
Qed.

Lemma hd_nth {A : Type} (l : list A) (d : A) : hd d l = nth 0 l d.
Proof. destruct l; reflexivity. Qed.

Lemma last_nth {A : Type} (l : list A) (d : A) :
  last l d = nth (pred (length l)) l d.
Proof.
  induction l as [| x [| y l] IH]; try reflexivity.
  change (last (x :: y :: l) d) with (last (y :: l) d). rewrite IH. reflexivity.
Qed.

(** *** searchsorted *)

Lemma searchsorted_right_length (a : list Z) (v : Z) :
  (searchsorted_right a v <= length a)%nat.
Proof.
  induction a as [| x a IH]; cbn; [lia |]. destruct (x <=? v); lia.
Qed.

Lemma searchsorted_right_before (a : list Z) (v : Z) :
  forall j, (j < searchsorted_right a v)%nat -> nth j a 0 <= v.
Proof.
  induction a as [| x a IH]; intros j Hj; cbn in Hj; [lia |].
  destruct (Z.leb_spec x v); [| lia].
  destruct j as [| j]; [exact H |]. cbn [nth]. apply IH. lia.
Qed.

Lemma searchsorted_right_after (a : list Z) (v : Z) :
  nondecreasing a ->
  forall j, (searchsorted_right a v <= j)%nat -> (j < length a)%nat ->
    v < nth j a 0.
Proof.
  induction a as [| x a IH]; intros Hs j Hj Hlen; cbn in Hlen; [lia |].
  cbn in Hj. destruct (Z.leb_spec x v).
  - destruct j as [| j]; [lia |]. cbn [nth].
    apply IH; [eapply nondecreasing_tail; eassumption | lia | lia].
  - destruct j as [| j]; [exact H |]. cbn [nth].
    pose proof (nondecreasing_head x a Hs j). lia.
Qed.

Lemma searchsorted_left_length (a : list Z) (v : Z) :
  (searchsorted_left a v <= length a)%nat.
Proof.
  induction a as [| x a IH]; cbn; [lia |]. destruct (x <? v); lia.
Qed.

Lemma searchsorted_left_before (a : list Z) (v : Z) :
  forall j, (j < searchsorted_left a v)%nat -> nth j a 0 < v.
Proof.
  induction a as [| x a IH]; intros j Hj; cbn in Hj; [lia |].
  destruct (Z.ltb_spec x v); [| lia].
  destruct j as [| j]; [exact H |]. cbn [nth]. apply IH. lia.
Qed.

Lemma searchsorted_left_after (a : list Z) (v : Z) :
  nondecreasing a ->
  forall j, (searchsorted_left a v <= j)%nat -> (j < length a)%nat ->
    v <= nth j a 0.
Proof.
  induction a as [| x a IH]; intros Hs j Hj Hlen; cbn in Hlen; [lia |].
  cbn in Hj. destruct (Z.ltb_spec x v).
  - destruct j as [| j]; [lia |]. cbn [nth].
    apply IH; [eapply nondecreasing_tail; eassumption | lia | lia].
  - destruct j as [| j]; [exact H |]. cbn [nth].
    pose proof (nondecreasing_head x a Hs j). lia.
Qed.

Lemma nondecreasing_removelast (l : list Z) :
  nondecreasing l -> nondecreasing (removelast l).
Proof.
  induction l as [| x [| y [| z l]] IH]; intros H; try exact I.
  destruct H as [Hxy H]. specialize (IH H).
  change (removelast (x :: y :: z :: l)) with (x :: y :: removelast (z :: l)).
  change (removelast (y :: z :: l)) with (y :: removelast (z :: l)) in IH.
  split; [exact Hxy | exact IH].
Qed.

Lemma nth_map_in {A B : Type} (g : A -> B) (l : list A) (j : nat) (d : A) (d' : B) :
  (j < length l)%nat -> nth j (map g l) d' = g (nth j l d).
Proof.
  intros H. rewrite (nth_indep _ d' (g d)) by now rewrite length_map.
  apply map_nth.
Qed.

(** [buf[start:stop] += vals] for values that fit the slice. *)
Lemma slice_add_fits {A : Type} (add : A -> A -> A) (buf : list A)
    (start stop : nat) (vals : list A) (d : A) :
  (start <= stop)%nat -> (stop <= length buf)%nat ->
  length vals = (stop - start)%nat ->
  exists buf',
    slice_add add buf start stop vals = Done buf'
    /\ length buf' = length buf
    /\ forall b, (b < length buf)%nat ->
         nth b buf' d =
           if (start <=? b)%nat && (b <? stop)%nat
           then add (nth b buf d) (nth (b - start) vals d)
           else nth b buf d.
Proof.
  intros Hss Hstop Hvals. unfold slice_add.
  assert (Ht : length (py_slice buf start stop) = (stop - start)%nat)
    by (rewrite length_py_slice; lia).
  rewrite Ht, Hvals, Nat.eqb_refl.
  eexists. split; [reflexivity |]. split.
  - rewrite !length_app, length_firstn, length_zip_with, length_skipn, Ht, Hvals. lia.
  - intros b Hb.
    destruct (Nat.leb_spec start b) as [H1 | H1]; cbn [andb].
    + rewrite app_nth2 by (rewrite length_firstn; lia).
      rewrite length_firstn, Nat.min_l by lia.
      destruct (Nat.ltb_spec b stop) as [H2 | H2].
      * rewrite app_nth1 by (rewrite length_zip_with, Ht, Hvals; lia).
        rewrite (nth_zip_with add d d d) by lia.
        rewrite nth_py_slice by lia. f_equal. f_equal. lia.
      * rewrite app_nth2 by (rewrite length_zip_with, Ht, Hvals; lia).
        rewrite length_zip_with, Ht, Hvals, nth_skipn. f_equal. lia.
    + rewrite app_nth1 by (rewrite length_firstn; lia).
      rewrite nth_firstn. destruct (Nat.ltb_spec b start); [reflexivity | lia].
Qed.

Lemma length_reduceat_from (data : list Q) (idx : list Z) :
  length (reduceat_from data idx) = length idx.
Proof. induction idx as [| i idx IH]; cbn; [reflexivity | now rewrite IH]. Qed.

Lemma nth_reduceat_from (data : list Q) (idx : list Z) (j : nat) :
  (j < length idx)%nat ->
  nth j (reduceat_from data idx) 0%Q =
    reduce_segment data (nth j idx 0)
      (if (S j <? length idx)%nat then nth (S j) idx 0
       else Z.of_nat (length data)).
Proof.
  revert j. induction idx as [| i idx IH]; intros j Hj; [cbn in Hj; lia |].
  destruct j as [| j].
  - destruct idx as [| next idx']; reflexivity.
  - cbn [length] in Hj. cbn [reduceat_from nth]. rewrite IH by lia. reflexivity.
Qed.

Lemma Qsum_app (a b : list Q) : (Qsum (a ++ b) == Qsum a + Qsum b)%Q.
Proof.
  unfold Qsum. induction a as [| x a IH]; cbn [app fold_right]; [ring |].
  rewrite IH. ring.
Qed.

(** The sum of a slice is the difference of two prefix sums. *)
Lemma prefix_slice (source : list Q) (a b : nat) :
  (a <= b)%nat ->
  (Qsum (py_slice source a b) == Qsum (firstn b source) - Qsum (firstn a source))%Q.
Proof.
  intros Hab.
  assert (E : firstn b source = firstn a source ++ py_slice source a b).
  { unfold py_slice. rewrite <- (firstn_skipn a (firstn b source)) at 1.
    rewrite firstn_firstn, skipn_firstn_comm, Nat.min_l by lia. reflexivity. }
  rewrite E, Qsum_app. ring.
Qed.

Lemma py_slice_py_slice {A : Type} (l : list A) (a b i j : nat) :
  (a + j <= b)%nat ->
  py_slice (py_slice l a b) i j = py_slice l (a + i) (a + j).
Proof.
  intros Hj. unfold py_slice.
  rewrite skipn_firstn_comm, firstn_firstn, skipn_skipn.
  f_equal; [lia | f_equal; lia].
Qed.

(** ** The overlap accumulator *)

Section Accumulate.

Variable offsets : list Z.
Variables item_start item_stop : Z.
Hypothesis offsets_sorted : nondecreasing offsets.
Hypothesis first_edge : nth 0 offsets 0 <= item_start.
Hypothesis item_nonempty : item_start < item_stop.
Hypothesis last_edge : item_stop <= nth (pred (length offsets)) offsets 0.

Let n := pred (length offsets).
Let start := searchsorted_right (tl offsets) item_start.
Let stop := searchsorted_left (removelast offsets) item_stop.

Lemma two_edges : (2 <= length offsets)%nat.
Proof.
  destruct offsets as [| x [| y l]]; cbn in *; lia.
Qed.

Lemma start_bound : (start <= n)%nat.
Proof.
  unfold start, n. rewrite <- (length_tl offsets). apply searchsorted_right_length.
Qed.

Lemma stop_bound : (stop <= n)%nat.
Proof.
  unfold stop, n. rewrite <- (length_removelast offsets).
  apply searchsorted_left_length.
Qed.

Lemma edge_before_start (b : nat) :
  (b <= start)%nat -> nth b offsets 0 <= item_start.
Proof.
  intros Hb. destruct b as [| b]; [exact first_edge |].
  rewrite <- nth_tl. apply searchsorted_right_before. fold start. lia.
Qed.

Lemma edge_after_start (b : nat) :
  (start < b)%nat -> (b <= n)%nat -> item_start < nth b offsets 0.
Proof.
  intros Hb Hn. destruct b as [| b]; [lia |].
  rewrite <- nth_tl. apply searchsorted_right_after.
  - destruct offsets as [| x l]; [exact I |].
    eapply nondecreasing_tail; eassumption.
  - fold start. lia.
  - rewrite length_tl. fold n. lia.
Qed.

Lemma edge_before_stop (b : nat) :
  (b < stop)%nat -> nth b offsets 0 < item_stop.
Proof.
  intros Hb. pose proof stop_bound.
  rewrite <- (nth_removelast offsets b 0) by (fold n; lia).
  apply searchsorted_left_before. exact Hb.
Qed.

Lemma edge_after_stop (b : nat) :
  (stop <= b)%nat -> (b <= n)%nat -> item_stop <= nth b offsets 0.
Proof.
  intros Hb Hn. destruct (Nat.eq_dec b n) as [E | NE].
  - subst b. exact last_edge.
  - rewrite <- (nth_removelast offsets b 0) by (fold n; lia).
    apply searchsorted_left_after.
    + now apply nondecreasing_removelast.
    + exact Hb.
    + rewrite length_removelast. fold n. lia.
Qed.

Lemma start_before_stop : (start < stop)%nat.
Proof.
  destruct (Nat.lt_ge_cases start stop) as [H | H]; [exact H |].
  pose proof stop_bound.
  pose proof (edge_before_start stop H).
  pose proof (edge_after_stop stop (Nat.le_refl _) ltac:(lia)).
  lia.
Qed.

Lemma clip_before_start (b : nat) :
  (b <= start)%nat -> clip item_start item_stop (nth b offsets 0) = item_start.
Proof. intros H. pose proof (edge_before_start b H). unfold clip. lia. Qed.

Lemma clip_after_stop (b : nat) :
  (stop <= b)%nat -> (b <= n)%nat ->
  clip item_start item_stop (nth b offsets 0) = item_stop.
Proof. intros H1 H2. pose proof (edge_after_stop b H1 H2). unfold clip. lia. Qed.

Lemma clip_between (b : nat) :
  (start < b)%nat -> (b < stop)%nat ->
  clip item_start item_stop (nth b offsets 0) = nth b offsets 0.
Proof.
  intros H1 H2. pose proof stop_bound.
  pose proof (edge_after_start b H1 ltac:(lia)).
  pose proof (edge_before_stop b H2). unfold clip. lia.
Qed.

(** The cut points: the edges of the touched bins, clipped to the slice and
    counted from its start. *)
Lemma cut_points :
  exists indices,
    set_first (map (fun o => o - item_start) (py_slice offsets start (stop + 1))) 0
      = Done indices
    /\ set_last indices (item_stop - item_start) =
       Done (map (fun o => clip item_start item_stop o - item_start)
                 (py_slice offsets start (stop + 1))).
Proof.
  pose proof start_before_stop as Hss. pose proof stop_bound as Hstop.
  pose proof two_edges as H2.
  assert (Hlen : length (py_slice offsets start (stop + 1)) = (stop + 1 - start)%nat).
  { rewrite length_py_slice. fold n in Hstop. unfold n in Hstop. lia. }
  remember (map (fun o => o - item_start) (py_slice offsets start (stop + 1))) as L eqn:EL.
  assert (HL : length L = (stop + 1 - start)%nat) by (subst L; now rewrite length_map).
  destruct L as [| x L]; [cbn in HL; lia |].
  eexists. split; [reflexivity |].
  cbn [set_last].
  f_equal. apply (nth_ext _ _ 0 0).
  - rewrite length_app, length_removelast, length_map, Hlen. cbn [length] in *. lia.
  - intros j Hj.
    rewrite length_app, length_removelast in Hj. cbn [length] in Hj, HL.
    rewrite (nth_map_in _ _ _ 0) by lia.
    rewrite nth_py_slice by lia.
    destruct (Nat.eq_dec j (length L)) as [E | NE].
    + rewrite app_nth2 by (rewrite length_removelast; cbn [length]; lia).
      rewrite length_removelast. cbn [length Nat.pred].
      replace (j - length L)%nat with O by lia. cbn [nth].
      rewrite clip_after_stop by lia. reflexivity.
    + rewrite app_nth1 by (rewrite length_removelast; cbn [length]; lia).
      rewrite nth_removelast by (cbn [length]; lia).
      destruct j as [| j].
      * cbn [nth]. rewrite Nat.add_0_r, clip_before_start by lia. lia.
      * rewrite clip_between by lia.
        change (nth (S j) (0 :: L) 0) with (nth (S j) (x :: L) 0).
        rewrite EL, (nth_map_in _ _ _ 0) by lia.
        rewrite nth_py_slice by lia. reflexivity.
Qed.

Lemma length_overlap : length (overlap offsets item_start item_stop) = n.
Proof. unfold overlap. now rewrite length_diff, length_map. Qed.

Lemma nth_overlap (b : nat) :
  (b < n)%nat ->
  nth b (overlap offsets item_start item_stop) 0 =
    clip item_start item_stop (nth (S b) offsets 0)
    - clip item_start item_stop (nth b offsets 0).
Proof.
  intros Hb. unfold overlap. fold n in Hb. unfold n in Hb.
  rewrite nth_diff by (rewrite length_map; lia).
  rewrite !(nth_map_in _ _ _ 0) by lia. reflexivity.
Qed.

(** One call of [_integrate] on a non-empty slice inside the frame: it does
    not raise, and adds to the count of every bin the number of samples of
    the slice that lie in the bin. *)
Lemma integrate_counts (data : list Q) (result : list Q) (count : list Z) :
  length data = Z.to_nat (item_stop - item_start) ->
  length result = n ->
  length count = n ->
  exists result',
    IntegrateBase._integrate offsets item_start item_stop data (result, count) =
      Done (result', zip_with Z.add count (overlap offsets item_start item_stop))
    /\ length result' = n.
Proof.
  intros Hdata Hresult Hcount.
  pose proof start_before_stop as Hss. pose proof stop_bound as Hstop.
  pose proof two_edges as H2.
  assert (Hlen : length (py_slice offsets start (stop + 1)) = (stop + 1 - start)%nat).
  { rewrite length_py_slice. fold n in Hstop. unfold n in Hstop. lia. }
  unfold IntegrateBase._integrate. fold start. fold stop.
  destruct cut_points as [indices0 [E1 E2]].
  rewrite E1. cbn [bind]. rewrite E2. cbn [bind].
  set (indices := map (fun o => clip item_start item_stop o - item_start)
                      (py_slice offsets start (stop + 1))).
  assert (HI : length indices = (stop + 1 - start)%nat)
    by (unfold indices; now rewrite length_map).
  assert (Hnth : forall j, (j <= stop - start)%nat ->
            nth j indices 0 =
              clip item_start item_stop (nth (start + j) offsets 0) - item_start).
  { intros j Hj. unfold indices. rewrite (nth_map_in _ _ _ 0) by lia.
    now rewrite nth_py_slice by lia. }
  assert (Hred : reduceat data (removelast indices) =
                 Done (reduceat_from data (removelast indices))).
  { unfold reduceat.
    replace (forallb _ (removelast indices)) with true; [reflexivity |].
    symmetry. apply forallb_forall. intros x Hx.
    destruct (In_nth _ _ 0 Hx) as [j [Hj <-]].
    rewrite length_removelast in Hj.
    rewrite nth_removelast by exact Hj. rewrite Hnth by lia.
    rewrite Hdata, Z2Nat.id by lia.
    destruct j as [| j].
    - rewrite Nat.add_0_r, clip_before_start by lia.
      apply andb_true_intro. split; [apply Z.leb_le | apply Z.ltb_lt]; lia.
    - rewrite clip_between by lia.
      pose proof (edge_after_start (start + S j) ltac:(lia) ltac:(lia)).
      pose proof (edge_before_stop (start + S j) ltac:(lia)).
      apply andb_true_intro. split; [apply Z.leb_le | apply Z.ltb_lt]; lia. }
  rewrite Hred. cbn [bind].
  destruct (slice_add_fits Qplus result start stop
              (reduceat_from data (removelast indices)) 0%Q)
    as [result' [Er [Lr _]]]; try lia.
  { rewrite length_reduceat_from, length_removelast. lia. }
  rewrite Er. cbn [bind].
  destruct (slice_add_fits Z.add count start stop (diff indices) 0)
    as [count' [Ec [Lc Nc]]]; try lia.
  { rewrite length_diff. lia. }
  rewrite Ec. cbn [bind].
  exists result'. split; [| lia].
  f_equal. f_equal.
  apply (nth_ext _ _ 0 0).
  - rewrite length_zip_with, length_overlap. lia.
  - intros b Hb. rewrite Lc, Hcount in Hb.
    rewrite Nc by lia.
    rewrite (nth_zip_with Z.add 0 0 0) by (rewrite ?length_overlap; lia).
    rewrite nth_overlap by exact Hb.
    destruct (Nat.leb_spec start b) as [H1 | H1]; cbn [andb].
    + destruct (Nat.ltb_spec b stop) as [H3 | H3].
      * rewrite nth_diff by lia.
        rewrite !Hnth by lia.
        replace (start + S (b - start))%nat with (S b) by lia.
        replace (start + (b - start))%nat with b by lia. lia.
      * rewrite !clip_after_stop by lia. lia.
    + rewrite !clip_before_start by lia. lia.
Qed.

(** One call of [_integrate] when no bin of the frame is empty: beside the
    counts, it adds to the sum of every bin the samples of the slice that
    lie in the bin. *)
Lemma integrate_sums (source : list Q) (result : list Q) (count : list Z) :
  increasing offsets ->
  0 <= item_start ->
  item_stop <= Z.of_nat (length source) ->
  length result = n ->
  length count = n ->
  exists result',
    IntegrateBase._integrate offsets item_start item_stop
      (py_slice source (Z.to_nat item_start) (Z.to_nat item_stop)) (result, count) =
      Done (result', zip_with Z.add count (overlap offsets item_start item_stop))
    /\ length result' = n
    /\ forall b, (b < n)%nat ->
         (nth b result' 0 ==
            nth b result 0
            + (prefix source (clip item_start item_stop (nth (S b) offsets 0%Z))
               - prefix source (clip item_start item_stop (nth b offsets 0%Z))))%Q.
Proof.
  intros Hinc Hlow Hhigh Hresult Hcount.
  set (data := py_slice source (Z.to_nat item_start) (Z.to_nat item_stop)).
  assert (Hdata : length data = Z.to_nat (item_stop - item_start)).
  { unfold data. rewrite length_py_slice. lia. }
  destruct (integrate_counts data result count Hdata Hresult Hcount)
    as [result' [E L]].
  exists result'. split; [exact E |]. split; [exact L |].
  pose proof start_before_stop as Hss. pose proof stop_bound as Hstop.
  pose proof two_edges as H2.
  assert (Hlen : length (py_slice offsets start (stop + 1)) = (stop + 1 - start)%nat).
  { rewrite length_py_slice. fold n in Hstop. unfold n in Hstop. lia. }
  unfold IntegrateBase._integrate in E. fold start in E. fold stop in E.
  destruct cut_points as [indices0 [E1 E2]].
  rewrite E1 in E. cbn [bind] in E. rewrite E2 in E. cbn [bind] in E.
  set (indices := map (fun o => clip item_start item_stop o - item_start)
                      (py_slice offsets start (stop + 1))) in *.
  assert (HI : length indices = (stop + 1 - start)%nat)
    by (unfold indices; now rewrite length_map).
  assert (Hnth : forall j, (j <= stop - start)%nat ->
            nth j indices 0 =
              clip item_start item_stop (nth (start + j) offsets 0) - item_start).
  { intros j Hj. unfold indices. rewrite (nth_map_in _ _ _ 0) by lia.
    now rewrite nth_py_slice by lia. }
  unfold reduceat in E.
  destruct (forallb _ (removelast indices)); [| discriminate E].
  cbn [bind] in E.
  destruct (slice_add_fits Qplus result start stop
              (reduceat_from data (removelast indices)) 0%Q)
    as [r [Er [Lr Nr]]]; try lia.
  { rewrite length_reduceat_from, length_removelast. lia. }
  rewrite Er in E. cbn [bind] in E.
  destruct (slice_add Z.add count start stop (diff indices));
    cbn [bind] in E; try discriminate E.
  injection E as <- _.
  intros b Hb. rewrite Nr by lia.
  destruct (Nat.leb_spec start b) as [H1 | H1]; cbn [andb].
  - destruct (Nat.ltb_spec b stop) as [H3 | H3].
    + rewrite nth_reduceat_from by (rewrite length_removelast; lia).
      rewrite length_removelast, HI.
      rewrite nth_removelast by lia. rewrite Hnth by lia.
      replace (start + (b - start))%nat with b by lia.
      set (lo := clip item_start item_stop (nth b offsets 0)).
      set (hi := clip item_start item_stop (nth (S b) offsets 0)).
      assert (Hnext : (if (S (b - start) <? Nat.pred (stop + 1 - start))%nat
                       then nth (S (b - start)) (removelast indices) 0
                       else Z.of_nat (length data)) = hi - item_start).
      { destruct (Nat.ltb_spec (S (b - start)) (Nat.pred (stop + 1 - start))).
        - rewrite nth_removelast by lia. rewrite Hnth by lia.
          replace (start + S (b - start))%nat with (S b) by lia. reflexivity.
        - rewrite Hdata, Z2Nat.id by lia. unfold hi.
          rewrite clip_after_stop by lia. reflexivity. }
      rewrite Hnext.
      assert (Hlo : item_start <= lo <= item_stop) by (unfold lo, clip; lia).
      assert (Hhi : item_start <= hi <= item_stop) by (unfold hi, clip; lia).
      assert (Hlt : lo < hi).
      { unfold lo, hi. destruct (Nat.eq_dec b start) as [-> | Hne].
        - rewrite clip_before_start by lia.
          destruct (Nat.lt_ge_cases (S start) stop).
          + rewrite clip_between by lia. apply edge_after_start; lia.
          + rewrite clip_after_stop by lia. lia.
        - rewrite (clip_between b) by lia.
          pose proof (edge_before_stop b H3).
          destruct (Nat.lt_ge_cases (S b) stop).
          + rewrite clip_between by lia. apply Hinc. lia.
          + rewrite clip_after_stop by lia. lia. }
      unfold reduce_segment.
      destruct (Z.ltb_spec (lo - item_start) (hi - item_start)); [| lia].
      unfold data. rewrite py_slice_py_slice by lia.
      rewrite prefix_slice by lia. unfold prefix.
      replace (Z.to_nat item_start + Z.to_nat (hi - item_start))%nat
        with (Z.to_nat hi) by lia.
      replace (Z.to_nat item_start + Z.to_nat (lo - item_start))%nat
        with (Z.to_nat lo) by lia.
      reflexivity.
    + rewrite !clip_after_stop by lia. ring.
  - rewrite !clip_before_start by lia. ring.
Qed.

End Accumulate.

Lemma clip_inside (lo hi x : Z) : lo <= x -> x <= hi -> clip lo hi x = x.
Proof. unfold clip. lia. Qed.

Lemma zip_add_zeros (count zeros : list Z) :
  length zeros = length count ->
  (forall b, (b < length count)%nat -> nth b zeros 0 = 0) ->
  zip_with Z.add count zeros = count.
Proof.
  intros Hlen Hz. apply (nth_ext _ _ 0 0).
  - rewrite length_zip_with. lia.
  - intros b Hb. rewrite length_zip_with in Hb.
    rewrite (nth_zip_with Z.add 0 0 0) by lia. rewrite Hz by lia. lia.
Qed.

(** The pieces of a request, delivered one after the other from position
    [pos] on, add up in the count buffer to the overlap of the whole
    request with each bin. *)
Lemma deliver_counts (offsets : list Z) (source : list Q) :
  nondecreasing offsets ->
  nth 0 offsets 0 = 0 ->
  forall pieces pos result count,
    Forall (fun c => (0 < c)%nat) pieces ->
    Z.of_nat (pos + fold_right Nat.add O pieces)
      <= nth (pred (length offsets)) offsets 0 ->
    (pos + fold_right Nat.add O pieces <= length source)%nat ->
    length result = pred (length offsets) ->
    length count = pred (length offsets) ->
    exists result',
      Stream.deliver (IntegrateBase._integrate offsets) source pieces pos
        (result, count) =
      Done (result',
            zip_with Z.add count
              (overlap offsets (Z.of_nat pos)
                 (Z.of_nat (pos + fold_right Nat.add O pieces))))
      /\ length result' = pred (length offsets).
Proof.
  intros Hsorted Hfirst.
  induction pieces as [| c pieces IH]; intros pos result count Hpos Hlast Hsrc Hr Hc.
  - cbn [Stream.deliver fold_right]. exists result. split; [| exact Hr].
    rewrite Nat.add_0_r. f_equal. f_equal. symmetry.
    apply zip_add_zeros; [now rewrite length_overlap |].
    intros b Hb. rewrite nth_overlap by lia. unfold clip. lia.
  - cbn [fold_right] in *. inversion Hpos as [| ? ? Hcpos Hrest]; subst.
    cbn [Stream.deliver].
    destruct (integrate_counts offsets (Z.of_nat pos) (Z.of_nat (pos + c))
                Hsorted ltac:(lia) ltac:(lia) ltac:(lia)
                (py_slice source pos (pos + c)) result count)
      as [result1 [E1 L1]]; try assumption.
    { rewrite length_py_slice. lia. }
    rewrite E1. cbn [bind].
    destruct (IH (pos + c)%nat result1
                (zip_with Z.add count
                   (overlap offsets (Z.of_nat pos) (Z.of_nat (pos + c)))) Hrest)
      as [result2 [E2 L2]]; try lia.
    { rewrite length_zip_with, length_overlap. lia. }
    rewrite E2. exists result2. split; [| exact L2].
    f_equal. f_equal.
    replace (pos + c + fold_right Nat.add 0%nat pieces)%nat
      with (pos + (c + fold_right Nat.add 0%nat pieces))%nat by lia.
    apply (nth_ext _ _ 0 0).
    + rewrite !length_zip_with, !length_overlap. lia.
    + intros b Hb. rewrite !length_zip_with, !length_overlap in Hb.
      rewrite (nth_zip_with Z.add 0 0 0)
        by (rewrite ?length_zip_with, ?length_overlap; lia).
      rewrite (nth_zip_with Z.add 0 0 0) by (rewrite ?length_overlap; lia).
      rewrite (nth_zip_with Z.add 0 0 0) by (rewrite ?length_overlap; lia).
      rewrite !nth_overlap by lia. unfold clip. lia.
Qed.

Lemma overlap_whole (offsets : list Z) (total : Z) :
  nondecreasing offsets ->
  nth 0 offsets 0 = 0 ->
  nth (pred (length offsets)) offsets 0 = total ->
  overlap offsets 0 total = diff offsets.
Proof.
  intros Hsorted Hfirst Hlast. unfold overlap. f_equal.
  apply (nth_ext _ _ 0 0); [apply length_map |].
  intros j Hj. rewrite length_map in Hj.
  rewrite (nth_map_in _ _ _ 0) by exact Hj.
  pose proof (nondecreasing_nth offsets Hsorted 0 j ltac:(lia) Hj).
  pose proof (nondecreasing_nth offsets Hsorted j (pred (length offsets))
                ltac:(lia) ltac:(lia)).
  apply clip_inside; lia.
Qed.

(** A whole request, read into zeroed or partly filled buffers: the counts
    grow by the widths of the bins. *)
Lemma read_counts (ih : Stream.t) (offsets : list Z) (result : list Q)
    (count : list Z) :
  Stream.reader_ok ih ->
  nondecreasing offsets ->
  nth 0 offsets 0 = 0 ->
  0 <= Stream.offset ih ->
  Stream.offset ih + last offsets 0 <= Stream.shape0 ih ->
  length result = pred (length offsets) ->
  length count = pred (length offsets) ->
  exists result' pos,
    Stream.read (IntegrateBase._integrate offsets) ih (last offsets 0)
      (result, count) =
    Done ((result', zip_with Z.add count (diff offsets)), Stream.seek ih pos)
    /\ length result' = pred (length offsets).
Proof.
  intros Hreader Hsorted Hfirst Hpos Hend Hr Hc.
  rewrite last_nth in *. set (total := nth (pred (length offsets)) offsets 0) in *.
  assert (Htotal : 0 <= total).
  { destruct offsets as [| x l]; [subst total; cbn; lia |].
    pose proof (nondecreasing_nth _ Hsorted 0 (pred (length (x :: l)))
                  ltac:(lia) ltac:(cbn; lia)).
    fold total in H. lia. }
  unfold Stream.read.
  destruct (Z.leb_spec total 0) as [Hz | Hnz].
  - exists result, (Stream.offset ih). split; [| exact Hr].
    replace (Stream.seek ih (Stream.offset ih)) with ih by (destruct ih; reflexivity).
    f_equal. f_equal. f_equal. symmetry.
    apply zip_add_zeros; [rewrite length_diff; lia |].
    intros b Hb. rewrite nth_diff by lia.
    pose proof (nondecreasing_nth _ Hsorted 0 b ltac:(lia) ltac:(lia)).
    pose proof (nondecreasing_nth _ Hsorted b (S b) ltac:(lia) ltac:(lia)).
    pose proof (nondecreasing_nth _ Hsorted (S b) (pred (length offsets))
                  ltac:(lia) ltac:(lia)).
    fold total in H1. lia.
  - replace ((0 <=? Stream.offset ih) && (Stream.offset ih + total <=? Stream.shape0 ih))
      with true
      by (symmetry; apply andb_true_intro; split; apply Z.leb_le; lia).
    destruct (Hreader (Z.to_nat (Stream.offset ih)) (Z.to_nat total)) as [Hsum Hpieces].
    destruct (deliver_counts offsets
                (py_slice (Stream.data ih) (Z.to_nat (Stream.offset ih))
                   (Z.to_nat (Stream.offset ih + total)))
                Hsorted Hfirst
                (Stream.chunking ih (Z.to_nat (Stream.offset ih)) (Z.to_nat total))
                O result count Hpieces)
      as [result' [E L]]; try assumption.
    { rewrite Hsum. cbn [Nat.add]. fold total. lia. }
    { rewrite Hsum, length_py_slice. unfold Stream.shape0 in Hend. lia. }
    rewrite E. cbn [bind]. exists result', (Stream.offset ih + total).
    split; [| exact L].
    rewrite Hsum. cbn [Nat.add Z.of_nat]. rewrite Z2Nat.id by lia.
    now rewrite (overlap_whole offsets total Hsorted Hfirst eq_refl).
Qed.

(** ** Frames in fixed-rate mode *)

Lemma nondecreasing_shift (d : Z) (l : list Z) :
  nondecreasing l -> nondecreasing (map (fun o => o - d) l).
Proof. apply nondecreasing_map. intros; lia. Qed.

Lemma diff_shift (d : Z) (l : list Z) :
  diff (map (fun o => o - d) l) = diff l.
Proof.
  induction l as [| x [| y l] IH]; try reflexivity.
  cbn [map diff] in *. rewrite IH. f_equal. lia.
Qed.

Lemma Zsum_diff (l : list Z) : Zsum (diff l) = last l 0 - hd 0 l.
Proof.
  induction l as [| x [| y l] IH]; try (cbn; lia).
  change (Zsum (diff (x :: y :: l))) with ((y - x) + Zsum (diff (y :: l))).
  rewrite IH. change (last (x :: y :: l) 0) with (last (y :: l) 0).
  cbn [hd]. lia.
Qed.

Lemma fixed_edges_length (self : Integrate.t) (frame_index : nat) :
  length (fixed_edges self frame_index) = S (Integrate.samples_per_frame self).
Proof.
  unfold fixed_edges, IntegrateBase.frame_samples. cbn [atleast_1d].
  rewrite !length_map, length_seq. lia.
Qed.

Lemma fixed_edges_nth (self : Integrate.t) (frame_index b : nat) :
  (b <= Integrate.samples_per_frame self)%nat ->
  nth b (fixed_edges self frame_index) 0 =
    Integrate.fixed_offset self
      (Z.of_nat (frame_index * Integrate.samples_per_frame self + b)).
Proof.
  intros Hb. unfold fixed_edges, IntegrateBase.frame_samples. cbn [atleast_1d].
  rewrite (nth_map_in _ _ _ 0) by (rewrite length_map, length_seq; lia).
  rewrite (nth_map_in _ _ _ O) by (rewrite length_seq; lia).
  rewrite seq_nth by lia. reflexivity.
Qed.

Lemma fixed_edges_sorted (self : Integrate.t) (frame_index : nat) :
  (0 < Integrate.sample_rate self)%Q ->
  (0 < Stream.sample_rate (Integrate.ih self))%Q ->
  nondecreasing (fixed_edges self frame_index).
Proof.
  intros Hrate Hih. unfold fixed_edges, IntegrateBase.frame_samples.
  cbn [atleast_1d]. apply nondecreasing_map.
  - intros i j. now apply fixed_offset_mono.
  - apply nondecreasing_arange.
Qed.

(** One frame in fixed-rate mode, for edges inside the stream: the read
    succeeds, the count of every bin is the distance of its edges, and the
    task is left as it was but for the position of the stream. *)
Lemma read_frame_counts (fuel : nat) (self : Integrate.t) (frame_index : nat) :
  Integrate.phase self = None ->
  (0 < Integrate.sample_rate self)%Q ->
  (0 < Stream.sample_rate (Integrate.ih self))%Q ->
  Stream.reader_ok (Integrate.ih self) ->
  0 <= nth 0 (fixed_edges self frame_index) 0 ->
  nth (Integrate.samples_per_frame self) (fixed_edges self frame_index) 0
    <= Stream.shape0 (Integrate.ih self) ->
  exists frame pos,
    Integrate._read_frame fuel self frame_index =
      Done (frame, Integrate.set_ih self (Stream.seek (Integrate.ih self) pos))
    /\ counts frame = diff (fixed_edges self frame_index)
    /\ length (sums frame) = Integrate.samples_per_frame self.
Proof.
  intros Hphase Hrate Hih Hreader Hlow Hhigh.
  pose proof (fixed_edges_length self frame_index) as Hlen.
  pose proof (fixed_edges_sorted self frame_index Hrate Hih) as Hsorted.
  unfold Integrate._read_frame, IntegrateBase._read_frame,
    IntegrateBase.resolve_and_seek.
  unfold Integrate._get_offsets at 1. rewrite Hphase. cbn [bind].
  change (pymap (Integrate.fixed_offset self)
            (IntegrateBase.frame_samples Integrate.samples_per_frame self frame_index))
    with (Array (fixed_edges self frame_index)).
  destruct (fixed_edges self frame_index) as [| o0 edges] eqn:E;
    [cbn in Hlen; lia |].
  cbn [bind hd]. rewrite <- E in *.
  set (rel := map (fun o => o - o0) (fixed_edges self frame_index)).
  assert (Hrel_len : length rel = S (Integrate.samples_per_frame self))
    by (unfold rel; now rewrite length_map).
  assert (Ho0 : nth 0 (fixed_edges self frame_index) 0 = o0) by (rewrite E; reflexivity).
  destruct (read_counts
              (Integrate.ih (Integrate.set_ih self (Stream.seek (Integrate.ih self) o0)))
              rel (repeat 0%Q (Integrate.samples_per_frame self))
              (repeat 0 (Integrate.samples_per_frame self)))
    as [result' [pos [Er Lr]]].
  - intros p c. apply Hreader.
  - now apply nondecreasing_shift.
  - unfold rel. rewrite (nth_map_in _ _ _ 0) by lia. lia.
  - cbn. lia.
  - rewrite last_nth, Hrel_len. cbn [Nat.pred]. unfold rel.
    rewrite (nth_map_in _ _ _ 0) by lia.
    cbn [Integrate.ih Integrate.set_ih Stream.offset Stream.seek Stream.shape0
         Stream.data] in *.
    unfold Stream.shape0 in *. cbn [Stream.seek Stream.data]. lia.
  - rewrite Hrel_len, repeat_length. reflexivity.
  - rewrite Hrel_len, repeat_length. reflexivity.
  - unfold Integrate.zeros.
    cbn [Integrate.samples_per_frame Integrate.set_ih] in *.
    rewrite Er. cbn [bind].
    eexists. exists pos. split; [reflexivity |].
    unfold counts, sums. cbn [IntegrateBase.acc snd fst]. split.
    + unfold rel. rewrite diff_shift.
      apply (nth_ext _ _ 0 0).
      * rewrite length_zip_with, repeat_length, length_diff, Hlen. cbn. lia.
      * intros b Hb.
        rewrite length_zip_with, repeat_length, length_diff, Hlen in Hb.
        cbn [Nat.pred] in Hb.
        rewrite (nth_zip_with Z.add 0 0 0)
          by (rewrite ?repeat_length, ?length_diff, ?Hlen; cbn; lia).
        rewrite nth_repeat. lia.
    + rewrite Lr, Hrel_len. reflexivity.
Qed.

Lemma seek_seek (ih : Stream.t) (p q : Z) :
  Stream.seek (Stream.seek ih p) q = Stream.seek ih q.
Proof. reflexivity. Qed.

Lemma seek_here (ih : Stream.t) : Stream.seek ih (Stream.offset ih) = ih.
Proof. destruct ih; reflexivity. Qed.

Lemma set_ih_same (self : Integrate.t) : Integrate.set_ih self (Integrate.ih self) = self.
Proof. destruct self; reflexivity. Qed.

(** Several frames in fixed-rate mode, in any order, each with its edges
    inside the stream. *)
Lemma read_frames_counts (fuel : nat) :
  forall (frames : list nat) (self : Integrate.t),
    Integrate.phase self = None ->
    (0 < Integrate.sample_rate self)%Q ->
    (0 < Stream.sample_rate (Integrate.ih self))%Q ->
    Stream.reader_ok (Integrate.ih self) ->
    (forall f, In f frames ->
       0 <= nth 0 (fixed_edges self f) 0
       /\ nth (Integrate.samples_per_frame self) (fixed_edges self f) 0
          <= Stream.shape0 (Integrate.ih self)) ->
    exists read pos,
      read_frames fuel self frames =
        Done (read, Integrate.set_ih self (Stream.seek (Integrate.ih self) pos))
      /\ map counts read = map (fun f => diff (fixed_edges self f)) frames.
Proof.
  induction frames as [| f frames IH]; intros self Hphase Hrate Hih Hreader Hin.
  - exists [], (Stream.offset (Integrate.ih self)).
    rewrite seek_here, set_ih_same. split; reflexivity.
  - destruct (Hin f (or_introl eq_refl)) as [Hlow Hhigh].
    destruct (read_frame_counts fuel self f Hphase Hrate Hih Hreader Hlow Hhigh)
      as [frame [pos [E [Hc _]]]].
    cbn [read_frames]. rewrite E. cbn [bind].
    set (self1 := Integrate.set_ih self (Stream.seek (Integrate.ih self) pos)).
    destruct (IH self1 Hphase Hrate Hih (fun p c => Hreader p c)
                (fun g Hg => Hin g (or_intror Hg)))
      as [read [pos' [E' Hc']]].
    rewrite E'. cbn [bind].
    exists (frame :: read), pos'. split; [reflexivity |].
    cbn [map]. rewrite Hc. f_equal. exact Hc'.
Qed.

Lemma Zsum_app (a b : list Z) : Zsum (a ++ b) = Zsum a + Zsum b.
Proof.
  unfold Zsum. induction a as [| x a IH]; cbn [app fold_right]; [reflexivity | lia].
Qed.

(** The widths of the bins of the frames [0 .. n-1] add up to the distance of
    the outermost edges. *)
Lemma Zsum_frames (self : Integrate.t) (n : nat) :
  Zsum (concat (map (fun f => diff (fixed_edges self f)) (seq 0 n))) =
    Integrate.fixed_offset self (Z.of_nat (n * Integrate.samples_per_frame self))
    - Integrate.fixed_offset self 0.
Proof.
  induction n as [| n IH]; [cbn; lia |].
  rewrite seq_S, map_app, concat_app, Zsum_app, IH. cbn [map concat Nat.add].
  rewrite app_nil_r, Zsum_diff, hd_nth, last_nth, fixed_edges_length.
  cbn [Nat.pred]. rewrite !fixed_edges_nth by lia.
  rewrite Nat.add_0_r.
  replace (S n * Integrate.samples_per_frame self)%nat
    with (n * Integrate.samples_per_frame self + Integrate.samples_per_frame self)%nat
    by lia.
  lia.
Qed.

#[global] Instance py_int_wd : Proper (Qeq ==> eq) py_int.
Proof.
  intros x y Hxy. unfold py_int.
  assert (E : Qle_bool 0 x = Qle_bool 0 y).
  { destruct (Qle_bool 0 x) eqn:Hx, (Qle_bool 0 y) eqn:Hy; try reflexivity.
    - rewrite Qle_bool_iff in Hx. rewrite Hxy, <- Qle_bool_iff in Hx. congruence.
    - rewrite Qle_bool_iff in Hy. rewrite <- Hxy, <- Qle_bool_iff in Hy. congruence. }
  rewrite E, (Qfloor_comp _ _ Hxy), (Qceiling_comp _ _ Hxy). reflexivity.
Qed.

Lemma py_int_inject_Z (n : Z) : py_int (inject_Z n) = n.
Proof. unfold py_int. destruct (Qle_bool 0 (inject_Z n)); [apply Qfloor_Z | apply Qceiling_Z]. Qed.

Lemma framed_pieces_ok (n : nat) :
  (0 < n)%nat ->
  forall fuel pos count, (count <= fuel)%nat ->
    Stream.pieces_ok count (Stream.framed_pieces fuel n pos count).
Proof.
  intros Hn. unfold Stream.pieces_ok.
  induction fuel as [| fuel IH]; intros pos count Hfuel.
  - assert (count = O) by lia. subst count. split; [reflexivity | constructor].
  - cbn [Stream.framed_pieces].
    destruct (Nat.eqb_spec count 0) as [-> | Hc]; [split; [reflexivity | constructor] |].
    pose proof (Nat.mod_upper_bound pos n ltac:(lia)) as Hmod.
    set (c := Nat.min count (n - pos mod n)).
    assert (Hc1 : (0 < c)%nat) by (unfold c; lia).
    assert (Hc2 : (c <= count)%nat) by (unfold c; lia).
    destruct (IH (pos + c)%nat (count - c)%nat ltac:(lia)) as [Hsum Hall].
    split; [cbn [fold_right]; lia | constructor; assumption].
Qed.

(** A reader that cuts requests at frame boundaries delivers every request
    in non-empty pieces that add up to it. *)
Lemma framed_reader_ok (data : list Q) (rate t0 : Q) (pos : Z) (n : nat) :
  (0 < n)%nat -> Stream.reader_ok (Stream.mk data rate t0 pos (Stream.framed n)).
Proof.
  intros Hn p c. cbn [Stream.chunking]. apply framed_pieces_ok; [exact Hn | lia].
Qed.

(** ** Exact partition *)



(** ** Indexed accumulation *)

Lemma length_update {A : Type} (g : A -> A) :
  forall (a : list A) (i : nat), length (update a i g) = length a.
Proof.
  induction a as [| x a IH]; intros [| i]; cbn; try reflexivity.
  now rewrite IH.
Qed.

Lemma nth_update {A : Type} (g : A -> A) (d : A) :
  forall (a : list A) (i j : nat),
    (i < length a)%nat ->
    nth j (update a i g) d = if Nat.eqb j i then g (nth j a d) else nth j a d.
Proof.
  induction a as [| x a IH]; intros i j Hi; cbn in Hi; [lia |].
  destruct i as [| i], j as [| j]; cbn; try reflexivity.
  apply IH. lia.
Qed.

Lemma rectangular_row {A : Type} (n_rows n_cols : nat) (a : list (list A)) (r : nat) :
  rectangular n_rows n_cols a -> (r < n_rows)%nat -> length (nth r a []) = n_cols.
Proof.
  intros [Hlen Hall] Hr. rewrite Forall_forall in Hall.
  apply Hall. apply nth_In. lia.
Qed.

Lemma rectangular_update {A : Type} (g : A -> A) (n_rows n_cols : nat)
    (a : list (list A)) (r c : nat) :
  rectangular n_rows n_cols a -> (r < n_rows)%nat ->
  rectangular n_rows n_cols (update a r (fun row => update row c g)).
Proof.
  intros Hrect Hr. pose proof Hrect as [Hlen Hall]. split.
  - now rewrite length_update.
  - rewrite Forall_forall. intros row Hrow.
    destruct (In_nth _ _ [] Hrow) as [j [Hj <-]].
    rewrite length_update in Hj.
    rewrite nth_update by lia.
    destruct (Nat.eqb j r).
    + rewrite length_update. apply (rectangular_row n_rows n_cols a j Hrect). lia.
    + apply (rectangular_row n_rows n_cols a j Hrect). lia.
Qed.

Section AddAt.

(** The values that are added: the integers with equality for the counts,
    the rationals with [Qeq] for the sums. *)
Context {A : Type}.
Variable add : A -> A -> A.
Variable zero : A.
Variable equiv : A -> A -> Prop.
Hypothesis equiv_refl : forall x, equiv x x.
Hypothesis equiv_trans : forall x y z, equiv x y -> equiv y z -> equiv x z.
Hypothesis add_zero : forall x, equiv x (add x zero).
Hypothesis add_assoc : forall x v w, equiv (add (add x v) w) (add x (add v w)).

Definition in_range (n_rows n_cols : nat) (index : list (Z * Z)) : Prop :=
  Forall (fun rc => 0 <= fst rc < Z.of_nat n_rows /\ 0 <= snd rc < Z.of_nat n_cols)
         index.

(** [np.add.at] with indices inside the array does not raise, keeps the
    shape, and adds to every element all the values indexed to it. *)
Lemma add_at_accumulates (n_rows n_cols : nat) :
  forall (index : list (Z * Z)) (vals : list A) (a : list (list A)),
    rectangular n_rows n_cols a ->
    in_range n_rows n_cols index ->
    exists a',
      add_at add a index vals = Done a'
      /\ rectangular n_rows n_cols a'
      /\ forall r c, (r < n_rows)%nat -> (c < n_cols)%nat ->
           equiv (nth c (nth r a' []) zero)
                 (add (nth c (nth r a []) zero) (tally add zero index vals r c)).
Proof.
  induction index as [| [r0 c0] index IH]; intros vals a Hrect Hrange.
  - exists a. split; [reflexivity |]. split; [exact Hrect |].
    intros r c _ _. cbn [tally]. apply add_zero.
  - destruct vals as [| v vals].
    + exists a. split; [reflexivity |]. split; [exact Hrect |].
      intros r c _ _. cbn [tally]. apply add_zero.
    + inversion Hrange as [| ? ? [Hr0 Hc0] Hrest]; subst. cbn [fst snd] in *.
      pose proof Hrect as [Hlen _].
      cbn [add_at]. unfold axis_index at 1.
      replace ((0 <=? r0) && (r0 <? Z.of_nat (length a))) with true
        by (symmetry; apply andb_true_intro; split;
            [apply Z.leb_le | apply Z.ltb_lt]; lia).
      cbn [bind].
      pose proof (rectangular_row n_rows n_cols a (Z.to_nat r0) Hrect ltac:(lia)) as Hrow.
      unfold axis_index. rewrite Hrow.
      replace ((0 <=? c0) && (c0 <? Z.of_nat n_cols)) with true
        by (symmetry; apply andb_true_intro; split;
            [apply Z.leb_le | apply Z.ltb_lt]; lia).
      cbn [bind].
      assert (Hr0' : (Z.to_nat r0 < n_rows)%nat) by lia.
      destruct (IH vals
                  (update a (Z.to_nat r0)
                     (fun row => update row (Z.to_nat c0) (fun x => add x v)))
                  (rectangular_update (fun x => add x v) n_rows n_cols a
                     (Z.to_nat r0) (Z.to_nat c0) Hrect Hr0') Hrest)
        as [a' [E [Hrect' Hacc]]].
      exists a'. split; [exact E |]. split; [exact Hrect' |].
      intros r c Hr Hc. eapply equiv_trans; [apply (Hacc r c Hr Hc) |].
      rewrite (nth_update _ []) by lia.
      cbn [tally].
      destruct (Nat.eqb_spec r (Z.to_nat r0)) as [Er | NEr].
      * rewrite (nth_update _ zero) by (rewrite <- Er in Hrow; lia).
        destruct (Nat.eqb_spec c (Z.to_nat c0)) as [Ec | NEc].
        -- replace (r0 =? Z.of_nat r) with true by (symmetry; apply Z.eqb_eq; lia).
           replace (c0 =? Z.of_nat c) with true by (symmetry; apply Z.eqb_eq; lia).
           cbn [andb]. apply add_assoc.
        -- replace (c0 =? Z.of_nat c) with false by (symmetry; apply Z.eqb_neq; lia).
           rewrite andb_false_r. apply equiv_refl.
      * replace (r0 =? Z.of_nat r) with false by (symmetry; apply Z.eqb_neq; lia).
        cbn [andb]. apply equiv_refl.
Qed.

End AddAt.

(** ** Fold *)

Lemma five_folded_init :
  Fold.init (ramp 5) 4 (fun _ => 3 # 5) StepNone true 1 = Done five_folded.
Proof. reflexivity. Qed.

(** The phase bin of a sample is the whole part of [n_phase] times the
    fractional part of its phase, a number from [0] to [n_phase - 1]. *)
Lemma phase_index_fractional (self : Fold.t) (i : Z) :
  (0 < Fold.n_phase self)%nat ->
  Fold.phase_index self i =
    Qfloor (fractional
              (Fold.phase self
                 (Fold._raw_time self
                  + inject_Z i / Stream.sample_rate (Fold.ih self))%Q)
            * inject_Z (Z.of_nat (Fold.n_phase self)))
  /\ 0 <= Fold.phase_index self i < Z.of_nat (Fold.n_phase self).
Proof.
  intros Hn. unfold Fold.phase_index.
  set (ph := Fold.phase self _). set (n := inject_Z (Z.of_nat (Fold.n_phase self))).
  assert (Hnpos : (0 < n)%Q).
  { unfold n. change 0%Q with (inject_Z 0). rewrite <- Zlt_Qlt. lia. }
  assert (E1 : Qfloor (ph * n / n) = Qfloor ph).
  { apply Qfloor_comp. field. lra. }
  assert (E2 : (np_mod (ph * n) n == fractional ph * n)%Q).
  { unfold np_mod, fractional. rewrite E1. ring. }
  rewrite E2.
  destruct (Qfloor_bounds ph) as [F1 F2].
  assert (G1 : (0 <= fractional ph * n)%Q).
  { unfold fractional. apply Qmult_le_0_compat; lra. }
  assert (G2 : (fractional ph * n < n)%Q).
  { unfold fractional.
    assert (H : ((ph - inject_Z (Qfloor ph)) * n < 1 * n)%Q)
      by (apply Qmult_lt_compat_r; lra).
    lra. }
  unfold py_int.
  replace (Qle_bool 0 (fractional ph * n)) with true
    by (symmetry; now apply Qle_bool_iff).
  split; [reflexivity |].
  destruct (Qfloor_bounds (fractional ph * n)) as [B1 B2].
  split.
  - change 0 with (Qfloor 0). now apply Qfloor_resp_le.
  - apply inject_Z_lt_inv. fold n. lra.
Qed.

Lemma sample_index_range (self : Fold.t) (offsets : list Z) (i : Z) :
  (0 < Fold.samples_per_frame self)%nat ->
  length offsets = S (Fold.samples_per_frame self) ->
  i < last offsets 0 ->
  0 <= Fold.sample_index self offsets i < Z.of_nat (Fold.samples_per_frame self).
Proof.
  intros Hspf Hlen Hi. unfold Fold.sample_index.
  destruct (Nat.eqb (Fold.samples_per_frame self) 1); [lia |].
  pose proof (searchsorted_left_length (tl offsets) i) as Hle.
  rewrite length_tl, Hlen in Hle. cbn [Nat.pred] in Hle.
  destruct (Nat.eq_dec (searchsorted_left (tl offsets) i) (Fold.samples_per_frame self))
    as [E | NE]; [| lia].
  pose proof (searchsorted_left_before (tl offsets) i
                (pred (Fold.samples_per_frame self)) ltac:(lia)) as H.
  rewrite nth_tl, last_nth, Hlen in *. cbn [Nat.pred] in Hi.
  replace (S (pred (Fold.samples_per_frame self))) with (Fold.samples_per_frame self)
    in H by lia.
  lia.
Qed.

Lemma tally_hits (sel : Z -> Z * Z) (r p : nat) :
  forall items,
    tally Z.add 0 (map sel items) (map (fun _ => 1) items) r p =
      Z.of_nat (length (filter (fun i => (fst (sel i) =? Z.of_nat r)
                                         && (snd (sel i) =? Z.of_nat p)) items)).
Proof.
  induction items as [| i items IH]; [reflexivity |].
  cbn [map tally filter]. destruct (sel i) as [r' c'] eqn:E. cbn [fst snd].
  destruct ((r' =? Z.of_nat r) && (c' =? Z.of_nat p)); rewrite IH; cbn [length]; lia.
Qed.

Lemma tally_picked (sel : Z -> Z * Z) (r p : nat) :
  forall items raw,
    tally Qplus 0%Q (map sel items) raw r p =
      Qsum (picked (fun i => (fst (sel i) =? Z.of_nat r)
                             && (snd (sel i) =? Z.of_nat p)) items raw).
Proof.
  induction items as [| i items IH]; intros [| v raw]; try reflexivity.
  - cbn [map tally picked]. destruct (sel i); reflexivity.
  - cbn [map tally picked]. destruct (sel i) as [r' c'] eqn:E. cbn [fst snd].
    destruct ((r' =? Z.of_nat r) && (c' =? Z.of_nat p)); rewrite IH; reflexivity.
Qed.

Lemma in_arange (start stop i : Z) : In i (arange start stop) -> start <= i < stop.
Proof.
  unfold arange. intros H. apply in_map_iff in H.
  destruct H as [k [<- Hk]]. apply in_seq in Hk. lia.
Qed.



(** ** Stack *)

Lemma slice_add_length {A : Type} (add : A -> A -> A) (buf : list A)
    (start stop : nat) (vals buf' : list A) :
  slice_add add buf start stop vals = Done buf' -> length buf' = length buf.
Proof.
  unfold slice_add.
  assert (Hput : forall new,
            length new = length (py_slice buf start stop) ->
            length (firstn start buf ++ new
                    ++ skipn (start + length (py_slice buf start stop)) buf)
            = length buf).
  { intros new Hnew.
    rewrite !length_app, length_firstn, length_skipn, Hnew, length_py_slice. lia. }
  destruct (Nat.eqb_spec (length vals) (length (py_slice buf start stop))) as [E | NE].
  - intros H. injection H as <-. apply Hput.
    rewrite length_zip_with. lia.
  - destruct vals as [| v [| w vals]]; try discriminate.
    intros H. injection H as <-. apply Hput. apply length_map.
Qed.

Lemma integrate_lengths (offsets : list Z) (item_start item_stop : Z)
    (data : list Q) (buf buf' : IntegrateBase.buffers) :
  IntegrateBase._integrate offsets item_start item_stop data buf = Done buf' ->
  length (fst buf') = length (fst buf) /\ length (snd buf') = length (snd buf).
Proof.
  destruct buf as [result count]. unfold IntegrateBase._integrate.
  destruct (set_first _ 0) as [i1 | |]; cbn [bind]; try discriminate.
  destruct (set_last i1 _) as [i2 | |]; cbn [bind]; try discriminate.
  destruct (reduceat data _) as [sums | |]; cbn [bind]; try discriminate.
  destruct (slice_add Qplus result _ _ sums) as [result' | |] eqn:Er;
    cbn [bind]; try discriminate.
  destruct (slice_add Z.add count _ _ _) as [count' | |] eqn:Ec;
    cbn [bind]; try discriminate.
  intros H. injection H as <-. cbn [fst snd].
  split; eapply slice_add_length; eassumption.
Qed.

Lemma deliver_lengths (offsets : list Z) (source : list Q) :
  forall pieces pos (buf buf' : IntegrateBase.buffers),
    Stream.deliver (IntegrateBase._integrate offsets) source pieces pos buf = Done buf' ->
    length (fst buf') = length (fst buf) /\ length (snd buf') = length (snd buf).
Proof.
  induction pieces as [| c pieces IH]; intros pos buf buf' H.
  - injection H as <-. split; reflexivity.
  - cbn [Stream.deliver] in H.
    destruct (IntegrateBase._integrate offsets _ _ _ buf) as [buf1 | |] eqn:E1;
      cbn [bind] in H; try discriminate.
    destruct (integrate_lengths _ _ _ _ _ _ E1) as [L1 L2].
    destruct (IH _ _ _ H) as [L3 L4]. split; congruence.
Qed.

Lemma read_lengths (offsets : list Z) (ih ih' : Stream.t) (count : Z)
    (buf buf' : IntegrateBase.buffers) :
  Stream.read (IntegrateBase._integrate offsets) ih count buf = Done (buf', ih') ->
  length (fst buf') = length (fst buf) /\ length (snd buf') = length (snd buf).
Proof.
  unfold Stream.read. destruct (count <=? 0).
  - intros H. injection H as <- _. split; reflexivity.
  - destruct ((0 <=? Stream.offset ih) && _); [| discriminate].
    destruct (Stream.deliver _ _ _ _ buf) as [buf1 | |] eqn:E; cbn [bind];
      try discriminate.
    intros H. injection H as <- _. eapply deliver_lengths; eassumption.
Qed.

Lemma get_offsets_config (fuel : nat) (self self' : Integrate.t)
    (samples offsets : pyarg) :
  Integrate._get_offsets fuel self samples = Done (offsets, self') ->
  Integrate.samples_per_frame self' = Integrate.samples_per_frame self
  /\ Integrate.average self' = Integrate.average self.
Proof.
  unfold Integrate._get_offsets. destruct (Integrate.phase self) as [f |].
  - destruct (Integrate.resolve _ _ _ _ _ _ _) as [[o ip] | |]; cbn [bind];
      try discriminate.
    destruct o as [o | [| o0 l]]; try discriminate.
    destruct ip as [[| q0 qs] |]; try discriminate.
    intros H. injection H as _ <-. split; reflexivity.
  - intros H. injection H as _ <-. split; reflexivity.
Qed.

(** A frame of [Integrate] has [samples_per_frame] elements, in every mode
    and whatever was resolved and read. *)
Lemma read_frame_shape (fuel : nat) (self self' : Integrate.t) (frame_index : nat)
    (frame : IntegrateBase.frame IntegrateBase.buffers (list fval)) :
  Integrate._read_frame fuel self frame_index = Done (frame, self') ->
  length (sums frame) = Integrate.samples_per_frame self
  /\ length (counts frame) = Integrate.samples_per_frame self
  /\ IntegrateBase.out frame =
       (if Integrate.average self
        then Averaged (Integrate.divide (IntegrateBase.acc frame))
        else Structured (IntegrateBase.acc frame))
  /\ Integrate.samples_per_frame self' = Integrate.samples_per_frame self.
Proof.
  unfold Integrate._read_frame, IntegrateBase._read_frame,
    IntegrateBase.resolve_and_seek.
  destruct (Integrate._get_offsets fuel self _) as [[offsets self1] | |] eqn:E;
    cbn [bind]; try discriminate.
  destruct (get_offsets_config _ _ _ _ _ E) as [Hspf Havg].
  destruct offsets as [o | [| o0 l]]; cbn [bind]; try discriminate.
  destruct (Stream.read _ _ _ _) as [[buf ih'] | |] eqn:Er; cbn [bind];
    try discriminate.
  intros H. injection H as <- <-.
  destruct (read_lengths _ _ _ _ _ _ Er) as [L1 L2].
  unfold Integrate.zeros in L1, L2. cbn [fst snd] in L1, L2.
  rewrite repeat_length in L1, L2.
  cbn [Integrate.samples_per_frame Integrate.average Integrate.set_ih] in *.
  unfold sums, counts. cbn [IntegrateBase.acc IntegrateBase.out].
  rewrite <- Hspf, <- Havg. repeat split; assumption.
Qed.

Lemma rows_spec {A : Type} (n_cols : nat) :
  forall (n_rows : nat) (a : list A),
    length a = (n_rows * n_cols)%nat ->
    rows_of n_rows n_cols a (rows n_rows n_cols a).
Proof.
  unfold rows_of.
  induction n_rows as [| n IH]; intros a Hlen.
  - cbn in *. destruct a; [| discriminate]. repeat split. constructor.
  - cbn [rows]. cbn [Nat.mul] in Hlen.
    destruct (IH (skipn n_cols a)) as [H1 [H2 H3]].
    { rewrite length_skipn. lia. }
    split; [cbn [length]; now rewrite H1 |]. split.
    + constructor; [| exact H2]. rewrite length_firstn. lia.
    + cbn [concat]. rewrite H3. apply firstn_skipn.
Qed.

Lemma reshape_spec {A : Type} (n_rows n_cols : nat) (a : list A) :
  length a = (n_rows * n_cols)%nat ->
  exists r, reshape n_rows n_cols a = Done r /\ rows_of n_rows n_cols a r.
Proof.
  intros Hlen. unfold reshape. rewrite Hlen, Nat.eqb_refl.
  eexists. split; [reflexivity |]. now apply rows_spec.
Qed.

Lemma stacked_init :
  Stack.init (ramp 32) 3 (linear_phase (1 # 10)) true 1 = Done stacked.
Proof. reflexivity. Qed.



(** ** Bins of no width *)

Lemma half_steps_init :
  Integrate.init three_samples (StepQuantity (1 # 2)) None true 6 = Done half_steps.
Proof. reflexivity. Qed.

Lemma half_steps_edges :
  Integrate._get_offsets 0 half_steps (Array [0; 1; 2; 3; 4; 5; 6]) =
    Done (Array [0; 0; 1; 2; 2; 2; 3], half_steps).
Proof. reflexivity. Qed.

(** C2, at the one slice of frame 0 of [half_steps].  Bins 3 and 4 are the
    empty interval from 2 to 2 and lie between the first and the last bin
    the slice touches; [np.add.reduceat] returns [data[2]] for each of them,
    so that the last sample is added to the sums of bins 3, 4 and 5, and the
    two bins that no sample belongs to receive a sum of 3 with a count of
    0. *)
Example C2_sample_added_to_empty_bins :
  IntegrateBase._integrate [0; 0; 1; 2; 2; 2; 3] 0 3 [1; 2; 3]%Q
    (repeat 0%Q 6, repeat 0 6) =
  Done ([0; 1; 2; 3; 3; 3]%Q, [0; 1; 1; 0; 0; 1]).
Proof. reflexivity. Qed.

(** C5, at frame 0 of [half_steps] with averaging.  The bins 3 and 4 have a
    count of 0 and a sum of 3, and the returned values are infinite, not
    NaN; bin 0, with count and sum 0, is NaN. *)
Example C5_empty_bin_is_infinite :
  match Integrate._read_frame 0 half_steps 0 with
  | Done (frame, _) =>
      sums frame = [0; 1; 2; 3; 3; 3]%Q
      /\ counts frame = [0; 1; 1; 0; 0; 1]
      /\ IntegrateBase.out frame =
           Averaged [FNaN; FNum 1; FNum 2; FInf false; FInf false; FNum 3]
  | _ => False
  end.
Proof. vm_compute. repeat split. Qed.

(* ================================================================== *)
(** * Further properties of the tasks *)

(** ** A step of a whole number of samples *)

Lemma Qfloor_unique (x : Q) (k : Z) :
  (inject_Z k <= x)%Q -> (x < inject_Z (k + 1))%Q -> Qfloor x = k.
Proof.
  intros Hlo Hhi.
  pose proof (Qfloor_resp_le _ _ Hlo) as H1. rewrite Qfloor_Z in H1.
  destruct (Qfloor_bounds x) as [B1 _].
  assert (H2 : Qfloor x < k + 1) by (apply inject_Z_lt_inv; lra).
  lia.
Qed.

Lemma Qfloor_div (a b : Z) :
  0 < b -> Qfloor (inject_Z a / inject_Z b) = a / b.
Proof.
  intros Hb.
  assert (Hqb : (0 < inject_Z b)%Q)
    by (change 0%Q with (inject_Z 0); now rewrite <- Zlt_Qlt).
  pose proof (Z.mul_div_le a b Hb) as H1.
  pose proof (Z.mul_succ_div_gt a b Hb) as H2.
  apply Qfloor_unique.
  - apply Qle_shift_div_l; [exact Hqb |].
    rewrite <- inject_Z_mult, <- Zle_Qle. lia.
  - apply Qlt_shift_div_r; [exact Hqb |].
    rewrite <- inject_Z_mult, <- Zlt_Qlt. lia.
Qed.


(** ** The stop time *)

(** What [Integrate.__init__] leaves in a task without phase function. *)
Lemma init_fixed_rate (ih : Stream.t) (step : step_arg) (average : bool)
    (samples_per_frame : nat) (self : Integrate.t) :
  (0 < Stream.sample_rate ih)%Q ->
  (0 < step_of ih step)%Q ->
  Integrate.init ih step None average samples_per_frame = Done self ->
  Integrate.ih self = ih
  /\ Integrate.phase self = None
  /\ (Integrate.sample_rate self == 1 / step_of ih step)%Q
  /\ 1 <= Integrate.shape0 self
  /\ (inject_Z (Integrate.shape0 self) * step_of ih step
      <= inject_Z (Stream.shape0 ih) / Stream.sample_rate ih)%Q.
Proof.
  intros Hrate Hstep. unfold Integrate.init. fold (step_of ih step).
  destruct (Qeq_bool (step_of ih step) 0); [discriminate |].
  set (x := ((Stream.stop_time ih - Stream.start_time ih) / step_of ih step)%Q).
  assert (Ex : (x == inject_Z (Stream.shape0 ih) / Stream.sample_rate ih
                     / step_of ih step)%Q).
  { unfold x, Stream.stop_time, Stream.time_at. field. split; lra. }
  assert (Hx : (0 <= x)%Q).
  { rewrite Ex. apply Qle_shift_div_l; [exact Hstep |].
    apply Qle_shift_div_l; [exact Hrate |]. rewrite !Qmult_0_l.
    unfold Stream.shape0. change 0%Q with (inject_Z 0). rewrite <- Zle_Qle. lia. }
  assert (Hint : py_int x = Qfloor x).
  { unfold py_int. now replace (Qle_bool 0 x) with true
      by (symmetry; now apply Qle_bool_iff). }
  destruct (Z.eqb_spec (py_int x) 0) as [E0 | NE0]; [discriminate |].
  intros H. injection H as <-.
  cbn [Integrate.ih Integrate.phase Integrate.sample_rate Integrate.shape0].
  rewrite Hint in *.
  destruct (Qfloor_bounds x) as [B1 _].
  assert (H0 : 0 <= Qfloor x)
    by (change 0 with (Qfloor 0); now apply Qfloor_resp_le).
  repeat split; try reflexivity; [lia |].
  assert (E : (inject_Z (Stream.shape0 ih) / Stream.sample_rate ih
               == x * step_of ih step)%Q) by (rewrite Ex; field; split; lra).
  rewrite E. apply Qmult_le_compat_r; lra.
Qed.

(** [Integrate.stop_time] of a task without phase function, for a positive
    step and a positive sample rate: the call returns for any fuel, leaves
    the task and the position of the stream as they were, and the time it
    returns is the time of the last edge, which lies between the start and
    the stop time of the stream. *)
Theorem stop_time_within_stream (ih : Stream.t) (step : step_arg)
    (average : bool) (samples_per_frame : nat) (self : Integrate.t) (fuel : nat) :
  (0 < Stream.sample_rate ih)%Q ->
  (0 < step_of ih step)%Q ->
  Integrate.init ih step None average samples_per_frame = Done self ->
  exists time,
    Integrate.stop_time fuel self = Done (time, self)
    /\ time = Stream.time_at ih (Integrate.fixed_offset self (Integrate.shape0 self))
    /\ (Stream.start_time ih <= time)%Q
    /\ (time <= Stream.stop_time ih)%Q.
Proof.
  intros Hrate Hstep Hinit.
  destruct (init_fixed_rate ih step average samples_per_frame self Hrate Hstep Hinit)
    as [Hih [Hphase [Hsr [Hshape Hfit]]]].
  set (edge := Integrate.fixed_offset self (Integrate.shape0 self)).
  assert (Hedge : 0 <= edge <= Stream.shape0 ih).
  { unfold edge, Integrate.fixed_offset. rewrite Hih. split.
    - change 0 with (np_round 0). apply np_round_mono.
      rewrite Hsr. apply Qmult_le_0_compat; [| lra].
      apply Qle_shift_div_l; [apply Qlt_shift_div_l; lra |].
      rewrite Qmult_0_l. change 0%Q with (inject_Z 0). rewrite <- Zle_Qle. lia.
    - rewrite <- (np_round_inject_Z (Stream.shape0 ih)). apply np_round_mono.
      rewrite Hsr.
      assert (E : (inject_Z (Integrate.shape0 self) / (1 / step_of ih step)
                   * Stream.sample_rate ih
                   == inject_Z (Integrate.shape0 self) * step_of ih step
                      * Stream.sample_rate ih)%Q) by (field; lra).
      rewrite E.
      assert (E2 : (inject_Z (Stream.shape0 ih)
                    == inject_Z (Stream.shape0 ih) / Stream.sample_rate ih
                       * Stream.sample_rate ih)%Q) by (field; lra).
      rewrite E2. apply Qmult_le_compat_r; lra. }
  exists (Stream.time_at ih edge).
  split; [| split; [reflexivity |]].
  - unfold Integrate.stop_time, Integrate._get_offsets. rewrite Hphase.
    cbn [bind pymap]. fold edge. unfold Stream.time, Stream.tell.
    rewrite seek_seek, seek_here, set_ih_same, Hih. reflexivity.
  - unfold Stream.stop_time, Stream.time_at.
    assert (H1 : (inject_Z 0 <= inject_Z edge)%Q) by (rewrite <- Zle_Qle; lia).
    assert (H2 : (inject_Z edge <= inject_Z (Stream.shape0 ih))%Q)
      by (rewrite <- Zle_Qle; lia).
    change (inject_Z 0) with 0%Q in H1.
    assert (Hinv : (0 < / Stream.sample_rate ih)%Q) by (apply Qinv_lt_0_compat; lra).
    unfold Qdiv. split.
    + assert (0 <= inject_Z edge * / Stream.sample_rate ih)%Q
        by (apply Qmult_le_0_compat; lra).
      lra.
    + assert (inject_Z edge * / Stream.sample_rate ih
              <= inject_Z (Stream.shape0 ih) * / Stream.sample_rate ih)%Q
        by (apply Qmult_le_compat_r; lra).
      lra.
Qed.

Lemma stop_time_within_stream_witness :
  exists time,
    Integrate.stop_time 0 ten_by_three = Done (time, ten_by_three)
    /\ time = Stream.time_at ten_samples 9
    /\ (Stream.start_time ten_samples <= time)%Q
    /\ (time <= Stream.stop_time ten_samples)%Q.
Proof.
  apply (stop_time_within_stream ten_samples (StepIndex 3) true 1 ten_by_three 0);
    reflexivity.
Defined.


(** ** Averages and sums *)

Lemma resolve_with_average (average : bool) (self : Integrate.t) (f : Q -> Q)
    (phase : list Q) :
  forall fuel offsets check ih_phase,
    Integrate.resolve fuel (with_average self average) f phase offsets check ih_phase
    = Integrate.resolve fuel self f phase offsets check ih_phase.
Proof.
  induction fuel as [| fuel IH]; intros offsets check ih_phase;
    cbn [Integrate.resolve]; [reflexivity |].
  destruct (existsb (fun m => m) (Integrate.nonzero check)); [| reflexivity].
  apply IH.
Qed.

Lemma get_offsets_with_average (average : bool) (fuel : nat) (self : Integrate.t)
    (samples : pyarg) :
  Integrate._get_offsets fuel (with_average self average) samples =
    match Integrate._get_offsets fuel self samples with
    | Done (offsets, self') => Done (offsets, with_average self' average)
    | Raised e => Raised e
    | Diverged => Diverged
    end.
Proof.
  unfold Integrate._get_offsets. cbn [Integrate.phase with_average].
  destruct (Integrate.phase self) as [f |]; [| reflexivity].
  cbn [Integrate._start Integrate.sample_rate Integrate._last_offset
       Integrate._last_phase].
  change (fun p => Integrate.correction (with_average self average) p
                     (Integrate._last_phase self))
    with (fun p => Integrate.correction self p (Integrate._last_phase self)).
  rewrite resolve_with_average.
  destruct (Integrate.resolve _ _ _ _ _ _ _) as [[offsets ih_phase] | e |];
    cbn [bind]; try reflexivity.
  destruct offsets as [o | [| o0 l]]; try reflexivity.
  destruct ih_phase as [[| q0 qs] |]; reflexivity.
Qed.

(** The sums and counts of a frame do not depend on the [average] flag: the
    flag only selects what is returned of them. *)
Lemma read_frame_with_average (average : bool) (fuel : nat) (self : Integrate.t)
    (frame_index : nat) :
  Integrate._read_frame fuel (with_average self average) frame_index =
    match Integrate._read_frame fuel self frame_index with
    | Done (frame, self') =>
        Done (IntegrateBase.mkFrame (IntegrateBase.acc frame)
                (if average
                 then Averaged (Integrate.divide (IntegrateBase.acc frame))
                 else Structured (IntegrateBase.acc frame)),
              with_average self' average)
    | Raised e => Raised e
    | Diverged => Diverged
    end.
Proof.
  unfold Integrate._read_frame, IntegrateBase._read_frame,
    IntegrateBase.resolve_and_seek.
  change (IntegrateBase.frame_samples Integrate.samples_per_frame
            (with_average self average) frame_index)
    with (IntegrateBase.frame_samples Integrate.samples_per_frame self frame_index).
  rewrite get_offsets_with_average.
  destruct (Integrate._get_offsets fuel self _) as [[offsets self1] | e |];
    cbn [bind]; try reflexivity.
  destruct offsets as [o | [| o0 l]]; cbn [bind]; try reflexivity.
  change (Integrate.zeros (Integrate.set_ih (with_average self1 average)
                             (Stream.seek (Integrate.ih (with_average self1 average)) o0)))
    with (Integrate.zeros (Integrate.set_ih self1
                             (Stream.seek (Integrate.ih self1) o0))).
  change (Integrate.ih (Integrate.set_ih (with_average self1 average)
                          (Stream.seek (Integrate.ih (with_average self1 average)) o0)))
    with (Integrate.ih (Integrate.set_ih self1 (Stream.seek (Integrate.ih self1) o0))).
  destruct (Stream.read _ _ _ _) as [[buf ih'] | e |]; reflexivity.
Qed.

(** The frame that [average=True] returns is, element by element, the
    [data] field divided by the [count] field of the frame that
    [average=False] returns for the same task in the same state; both frames
    have [samples_per_frame] elements, and one call raises or diverges
    exactly when the other does. *)
Theorem average_is_data_over_count (fuel : nat) (self : Integrate.t)
    (frame_index : nat) :
  match Integrate._read_frame fuel (with_average self false) frame_index with
  | Done (frame, self') =>
      exists data count,
        IntegrateBase.out frame = Structured (data, count)
        /\ length data = Integrate.samples_per_frame self
        /\ length count = Integrate.samples_per_frame self
        /\ exists frame',
             Integrate._read_frame fuel (with_average self true) frame_index =
               Done (frame', with_average self' true)
             /\ IntegrateBase.out frame' = Averaged (zip_with fdiv data count)
  | Raised e =>
      Integrate._read_frame fuel (with_average self true) frame_index = Raised e
  | Diverged =>
      Integrate._read_frame fuel (with_average self true) frame_index = Diverged
  end.
Proof.
  rewrite !read_frame_with_average.
  destruct (Integrate._read_frame fuel self frame_index)
    as [[frame self'] | e |] eqn:E; try reflexivity.
  destruct (read_frame_shape _ _ _ _ _ E) as [Ls [Lc _]].
  unfold sums, counts in Ls, Lc.
  destruct (IntegrateBase.acc frame) as [data count] eqn:Ea. cbn [fst snd] in Ls, Lc.
  exists data, count. cbn [IntegrateBase.out].
  split; [reflexivity |]. split; [exact Ls |]. split; [exact Lc |].
  eexists. split; [reflexivity |]. reflexivity.
Qed.

(** ** The output sample of a folded sample *)

Lemma two_rows_init :
  Fold.init (ramp 10) 4 (linear_phase (1 # 10)) (StepIndex 5) true 2 = Done two_rows.
Proof. reflexivity. Qed.

Lemma searchsorted_left_iff (a : list Z) (v : Z) (k : nat) :
  nondecreasing a -> (k <= length a)%nat ->
  searchsorted_left a v = k <->
  (forall j, (j < k)%nat -> nth j a 0 < v) /\ ((k < length a)%nat -> v <= nth k a 0).
Proof.
  intros Hs Hk. split.
  - intros <-. split.
    + apply searchsorted_left_before.
    + intros Hlt. now apply searchsorted_left_after.
  - intros [Hbefore Hafter].
    pose proof (searchsorted_left_length a v) as Hlen.
    destruct (Nat.lt_trichotomy (searchsorted_left a v) k) as [Hlt | [E | Hgt]];
      [| exact E |].
    + pose proof (Hbefore _ Hlt).
      pose proof (searchsorted_left_after a v Hs (searchsorted_left a v)
                    (Nat.le_refl _) ltac:(lia)).
      lia.
    + pose proof (searchsorted_left_before a v k Hgt).
      pose proof (Hafter ltac:(lia)). lia.
Qed.

Lemma searchsorted_right_iff (a : list Z) (v : Z) (k : nat) :
  nondecreasing a -> (k <= length a)%nat ->
  searchsorted_right a v = k <->
  (forall j, (j < k)%nat -> nth j a 0 <= v) /\ ((k < length a)%nat -> v < nth k a 0).
Proof.
  intros Hs Hk. split.
  - intros <-. split.
    + apply searchsorted_right_before.
    + intros Hlt. now apply searchsorted_right_after.
  - intros [Hbefore Hafter].
    pose proof (searchsorted_right_length a v) as Hlen.
    destruct (Nat.lt_trichotomy (searchsorted_right a v) k) as [Hlt | [E | Hgt]];
      [| exact E |].
    + pose proof (Hbefore _ Hlt).
      pose proof (searchsorted_right_after a v Hs (searchsorted_right a v)
                    (Nat.le_refl _) ltac:(lia)).
      lia.
    + pose proof (searchsorted_right_before a v k Hgt).
      pose proof (Hafter ltac:(lia)). lia.
Qed.

(** With more than one output sample per frame, [Fold._integrate] adds raw
    sample [i] to the output sample [b] with
    [offsets[b] < i <= offsets[b+1]] (the lower bound dropped for [b = 0]):
    a sample on an inner edge goes to the output sample that ends there.
    [IntegrateBase._integrate] starts a slice at the bin with
    [offsets[b] <= i < offsets[b+1]]: there the sample on an edge belongs to
    the bin that starts at the edge. *)
Theorem fold_sample_on_edge (self : Fold.t) (offsets : list Z) (i : Z) (b : nat) :
  Fold.samples_per_frame self <> 1%nat ->
  nondecreasing offsets ->
  length offsets = S (Fold.samples_per_frame self) ->
  (b < Fold.samples_per_frame self)%nat ->
  (Fold.sample_index self offsets i = Z.of_nat b <->
   (b = O \/ nth b offsets 0 < i) /\ i <= nth (S b) offsets 0)
  /\ (searchsorted_right (tl offsets) i = b <->
      (b = O \/ nth b offsets 0 <= i) /\ i < nth (S b) offsets 0).
Proof.
  intros Hspf Hs Hlen Hb.
  assert (Htl : nondecreasing (tl offsets)).
  { destruct offsets as [| x l]; [exact I | eapply nondecreasing_tail; eassumption]. }
  assert (Hltl : length (tl offsets) = Fold.samples_per_frame self)
    by (rewrite length_tl, Hlen; reflexivity).
  split.
  - unfold Fold.sample_index.
    destruct (Nat.eqb_spec (Fold.samples_per_frame self) 1) as [E | _]; [contradiction |].
    rewrite Nat2Z.inj_iff, (searchsorted_left_iff _ _ b Htl) by lia.
    rewrite Hltl, nth_tl. split.
    + intros [Hbefore Hafter]. split; [| now apply Hafter].
      destruct b as [| b]; [now left | right].
      rewrite <- nth_tl. apply Hbefore. lia.
    + intros [Hlow Hhigh]. split; [| intros _; exact Hhigh].
      intros j Hj. destruct Hlow as [-> | Hlow]; [lia |].
      rewrite nth_tl.
      pose proof (nondecreasing_nth offsets Hs (S j) b ltac:(lia) ltac:(lia)). lia.
  - rewrite (searchsorted_right_iff _ _ b Htl) by lia.
    rewrite Hltl, nth_tl. split.
    + intros [Hbefore Hafter]. split; [| now apply Hafter].
      destruct b as [| b]; [now left | right].
      rewrite <- nth_tl. apply Hbefore. lia.
    + intros [Hlow Hhigh]. split; [| intros _; exact Hhigh].
      intros j Hj. destruct Hlow as [-> | Hlow]; [lia |].
      rewrite nth_tl.
      pose proof (nondecreasing_nth offsets Hs (S j) b ltac:(lia) ltac:(lia)). lia.
Qed.

(** Sample 5 of a frame with the edges [0; 5; 10]: [Fold] adds it to output
    sample 0, although it is the first sample of bin 1. *)
Lemma fold_sample_on_edge_witness :
  Fold.sample_index two_rows [0; 5; 10] 5 = 0
  /\ searchsorted_right (tl [0; 5; 10]) 5 = 1%nat.
Proof.
  split.
  - apply (proj1 (fold_sample_on_edge two_rows [0; 5; 10] 5 0
                    ltac:(discriminate) ltac:(cbn; lia) eq_refl ltac:(cbn; lia))).
    split; [now left | cbn; lia].
  - apply (proj2 (fold_sample_on_edge two_rows [0; 5; 10] 5 1
                    ltac:(discriminate) ltac:(cbn; lia) eq_refl ltac:(cbn; lia))).
    split; [right; cbn; lia | cbn; lia].
Defined.

(** ** What the phase-driven resolver returns *)

Lemma all_tracking_lengths (self : Integrate.t) (f : Q -> Q) :
  forall phase offsets check,
    all_tracking self f phase offsets check ->
    length phase = length check /\ length offsets = length check.
Proof.
  induction phase as [| p phase IH]; intros [| o offsets] [| c check] H;
    cbn in H; try contradiction; [split; reflexivity |].
  destruct H as [_ H]. destruct (IH _ _ H) as [E1 E2].
  cbn. split; congruence.
Qed.

Lemma all_tracking_turn (self : Integrate.t) (f : Q -> Q) :
  forall phase offsets check,
    all_tracking self f phase offsets check ->
    all_tracking self f phase (zip_with Z.add offsets check)
      (next_check self f phase (zip_with Z.add offsets check) check).
Proof.
  induction phase as [| p phase IH]; intros [| o offsets] [| c check] H;
    cbn [all_tracking] in H; try contradiction; [exact I |].
  destruct H as [H1 H2].
  cbn [zip_with next_check all_tracking]. split; [| now apply IH].
  destruct (Z.eqb_spec c 0) as [Hc | Hc].
  - subst c. rewrite Z.add_0_r. exact H1.
  - left. reflexivity.
Qed.

Lemma all_tracking_done (self : Integrate.t) (f : Q -> Q) :
  forall phase offsets check,
    all_tracking self f phase offsets check ->
    existsb (fun m => m) (Integrate.nonzero check) = false ->
    Forall2 (on_target self f) phase offsets.
Proof.
  induction phase as [| p phase IH]; intros [| o offsets] [| c check] H Hnone;
    cbn [all_tracking] in H; try contradiction; [constructor |].
  destruct H as [H1 H2]. cbn in Hnone.
  apply orb_false_iff in Hnone. destruct Hnone as [Hc Hnone].
  apply negb_false_iff, Z.eqb_eq in Hc. subst c.
  constructor; [| now apply (IH offsets check)].
  destruct H1 as [H1 | [Ho H1]]; symmetry in H1;
    apply np_round_zero_inv in H1; [left | right; split; [exact Ho |]]; exact H1.
Qed.

Lemma resolve_tracking (self : Integrate.t) (f : Q -> Q) :
  forall fuel phase offsets check ih_phase result ih_phase',
    all_tracking self f phase offsets check ->
    Integrate.resolve fuel self f phase (Array offsets) check ih_phase =
      Done (result, ih_phase') ->
    exists l, result = Array l /\ Forall2 (on_target self f) phase l.
Proof.
  induction fuel as [| fuel IH]; intros phase offsets check ih_phase result ih_phase' H.
  - cbn [Integrate.resolve].
    destruct (existsb (fun m => m) (Integrate.nonzero check)) eqn:Hany; [discriminate |].
    intros E. injection E as <- _. exists offsets. split; [reflexivity |].
    eapply all_tracking_done; eassumption.
  - destruct (existsb (fun m => m) (Integrate.nonzero check)) eqn:Hany.
    + rewrite (resolve_turn _ _ _ _ _ _ _ Hany). cbv zeta.
      destruct (all_tracking_lengths _ _ _ _ _ H) as [Lp Lo].
      pose proof (all_tracking_turn _ _ _ _ _ H) as H'.
      cbn [Integrate.iadd].
      rewrite (next_check_turn self f check phase (zip_with Z.add offsets check) Lp)
        by (rewrite length_zip_with; lia).
      apply IH. exact H'.
    + rewrite (resolve_settled _ _ _ _ _ _ _ Hany).
      intros E. injection E as <- _. exists offsets. split; [reflexivity |].
      eapply all_tracking_done; eassumption.
Qed.

Lemma all_tracking_start (self : Integrate.t) (f : Q -> Q) :
  forall phase,
    all_tracking self f phase
      (repeat (Integrate._last_offset self) (length phase))
      (map (fun p => Integrate.correction self p (Integrate._last_phase self)) phase).
Proof.
  induction phase as [| p phase IH]; [exact I |].
  cbn [length repeat map all_tracking]. split; [| exact IH].
  right. split; reflexivity.
Qed.

(** In phase-driven mode, when [_get_offsets] returns, it returns one offset
    for every requested index (a scalar for a scalar), and every one of them
    answers the target phase of its index: the phase function at the offset
    is within half a mean input sample of the target, or, for an index that
    needed no correction at all, the offset is the stored [_last_offset] and
    the stored [_last_phase] is within half a mean input sample of the
    target. *)
Theorem resolved_offsets_on_target (fuel : nat) (self self' : Integrate.t)
    (f : Q -> Q) (samples offsets : pyarg) :
  Integrate.phase self = Some f ->
  Integrate._get_offsets fuel self samples = Done (offsets, self') ->
  Forall2 (on_target self f)
    (map (fun index => (Integrate._start self
                        + inject_Z index / Integrate.sample_rate self)%Q)
         (atleast_1d samples))
    (atleast_1d offsets)
  /\ match samples with
     | Scalar _ => exists o, offsets = Scalar o
     | Array _ => exists l, offsets = Array l
     end.
Proof.
  intros Hphase. unfold Integrate._get_offsets. rewrite Hphase.
  set (phase := map _ (atleast_1d samples)).
  set (check := map (fun p => Integrate.correction self p (Integrate._last_phase self))
                    phase).
  destruct fuel as [| fuel].
  - cbn [Integrate.resolve].
    destruct (existsb (fun m => m) (Integrate.nonzero check)); discriminate.
  - destruct (existsb (fun m => m) (Integrate.nonzero check)) eqn:Hany.
    + rewrite (resolve_turn _ _ _ _ _ _ _ Hany). cbv zeta.
      pose proof (all_tracking_start self f phase) as H0.
      fold check in H0.
      replace (length phase) with (length check) in H0
        by (unfold check; apply length_map).
      destruct (all_tracking_lengths _ _ _ _ _ H0) as [Lp Lo].
      pose proof (all_tracking_turn _ _ _ _ _ H0) as H1.
      rewrite iadd_offsets_list. cbn [offsets_list].
      rewrite (next_check_turn self f check phase _ Lp)
        by (rewrite length_zip_with; lia).
      destruct (Integrate.resolve fuel self f phase _ _ _)
        as [[result ih_phase] | e |] eqn:E; cbn [bind]; try discriminate.
      destruct (resolve_tracking _ _ _ _ _ _ _ _ _ H1 E) as [l [-> Hl]].
      destruct l as [| o0 l]; [discriminate |].
      destruct ih_phase as [[| q0 qs] |]; try discriminate.
      intros H. injection H as <- _.
      destruct samples as [i | s]; cbn [atleast_1d] in *.
      * split; [| eexists; reflexivity].
        inversion Hl as [| ? ? ? ? Ho Hrest]; subst.
        inversion Hrest; subst. constructor; [exact Ho | constructor].
      * split; [exact Hl | eexists; reflexivity].
    + rewrite (resolve_settled _ _ _ _ _ _ _ Hany). cbn [bind]. discriminate.
Qed.

Lemma resolved_offsets_on_target_witness :
  exists offsets self',
    Integrate._get_offsets 2 thirds (Array [0; 1; 2]) = Done (Array offsets, self')
    /\ Forall2 (on_target thirds (linear_phase (1 # 10)))
         (map (fun index => (Integrate._start thirds
                             + inject_Z index / Integrate.sample_rate thirds)%Q)
              [0; 1; 2])
         offsets.
Proof.
  assert (E : exists offsets self',
            Integrate._get_offsets 2 thirds (Array [0; 1; 2])
            = Done (Array offsets, self'))
    by (vm_compute; eexists; eexists; reflexivity).
  destruct E as [offsets [self' E]].
  exists offsets, self'. split; [exact E |].
  exact (proj1 (resolved_offsets_on_target 2 thirds self' (linear_phase (1 # 10))
                  (Array [0; 1; 2]) (Array offsets) eq_refl E)).
Defined.

(** ** Folding counts every sample once *)

Lemma Zsum_update (v : Z) :
  forall (row : list Z) (c : nat),
    (c < length row)%nat -> Zsum (update row c (fun x => x + v)) = Zsum row + v.
Proof.
  unfold Zsum.
  induction row as [| x row IH]; intros c Hc; cbn in Hc; [lia |].
  destruct c as [| c]; cbn [update fold_right]; [lia |].
  rewrite IH by lia. lia.
Qed.

Lemma total_update (v : Z) :
  forall (a : list (list Z)) (r c : nat),
    (r < length a)%nat -> (c < length (nth r a []))%nat ->
    total (update a r (fun row => update row c (fun x => x + v))) = total a + v.
Proof.
  unfold total.
  induction a as [| row a IH]; intros r c Hr Hc; cbn in Hr; [lia |].
  destruct r as [| r]; cbn [update map nth] in *.
  - change (Zsum (?x :: ?l)) with (x + Zsum l). rewrite Zsum_update by exact Hc. lia.
  - change (Zsum (?x :: ?l)) with (x + Zsum l). rewrite IH by (try lia; exact Hc). lia.
Qed.

(** [np.add.at(count, index, 1)] with indices inside the array adds one per
    index to the total. *)
Lemma add_at_ones (n_rows n_cols : nat) (sel : Z -> Z * Z) :
  forall (items : list Z) (a : list (list Z)),
    rectangular n_rows n_cols a ->
    in_range n_rows n_cols (map sel items) ->
    exists a',
      add_at Z.add a (map sel items) (map (fun _ => 1) items) = Done a'
      /\ rectangular n_rows n_cols a'
      /\ total a' = total a + Z.of_nat (length items).
Proof.
  induction items as [| i items IH]; intros a Hrect Hrange.
  - exists a. split; [reflexivity |]. split; [exact Hrect | cbn; lia].
  - cbn [map] in *. destruct (sel i) as [r0 c0] eqn:Es.
    inversion Hrange as [| ? ? [Hr0 Hc0] Hrest]; subst. cbn [fst snd] in *.
    pose proof Hrect as [Hlen _].
    cbn [add_at]. unfold axis_index at 1.
    replace ((0 <=? r0) && (r0 <? Z.of_nat (length a))) with true
      by (symmetry; apply andb_true_intro; split;
          [apply Z.leb_le | apply Z.ltb_lt]; lia).
    cbn [bind].
    pose proof (rectangular_row n_rows n_cols a (Z.to_nat r0) Hrect ltac:(lia)) as Hrow.
    unfold axis_index. rewrite Hrow.
    replace ((0 <=? c0) && (c0 <? Z.of_nat n_cols)) with true
      by (symmetry; apply andb_true_intro; split;
          [apply Z.leb_le | apply Z.ltb_lt]; lia).
    cbn [bind].
    assert (Hr0' : (Z.to_nat r0 < n_rows)%nat) by lia.
    destruct (IH (update a (Z.to_nat r0)
                    (fun row => update row (Z.to_nat c0) (fun x => x + 1)))
                (rectangular_update (fun x => x + 1) n_rows n_cols a
                   (Z.to_nat r0) (Z.to_nat c0) Hrect Hr0') Hrest)
      as [a' [E [Hrect' Htotal]]].
    exists a'. split; [exact E |]. split; [exact Hrect' |].
    rewrite Htotal, total_update by lia. cbn [length]. lia.
Qed.

Lemma length_arange (start stop : Z) :
  start <= stop -> Z.of_nat (length (arange start stop)) = stop - start.
Proof. intros H. unfold arange. rewrite length_map, length_seq. lia. Qed.

(** One call of [Fold._integrate] on a slice inside the frame adds the
    number of samples of the slice to the total of the counts. *)
Lemma fold_integrate_total (self : Fold.t) (offsets : list Z)
    (item_start item_stop : Z) (raw : list Q)
    (result : list (list Q)) (count : list (list Z)) :
  (0 < Fold.n_phase self)%nat ->
  (0 < Fold.samples_per_frame self)%nat ->
  length offsets = S (Fold.samples_per_frame self) ->
  item_start <= item_stop ->
  item_stop <= last offsets 0 ->
  rectangular (Fold.samples_per_frame self) (Fold.n_phase self) result ->
  rectangular (Fold.samples_per_frame self) (Fold.n_phase self) count ->
  exists result' count',
    Fold._integrate self offsets item_start item_stop raw (result, count) =
      Done (result', count')
    /\ rectangular (Fold.samples_per_frame self) (Fold.n_phase self) result'
    /\ rectangular (Fold.samples_per_frame self) (Fold.n_phase self) count'
    /\ total count' = total count + (item_stop - item_start).
Proof.
  intros Hn Hspf Hlen Hse Hstop Hresult Hcount.
  set (sel := fun i => (Fold.sample_index self offsets i, Fold.phase_index self i)).
  assert (Hrange : in_range (Fold.samples_per_frame self) (Fold.n_phase self)
                     (map sel (arange item_start item_stop))).
  { unfold in_range. rewrite Forall_map, Forall_forall.
    intros i Hi. apply in_arange in Hi. cbn [fst snd sel]. split.
    - apply sample_index_range; [exact Hspf | exact Hlen | lia].
    - now apply phase_index_fractional. }
  destruct (add_at_accumulates Qplus 0%Q Qeq Qeq_refl Qeq_trans
              ltac:(intros; ring) ltac:(intros; ring)
              _ _ (map sel (arange item_start item_stop)) raw result Hresult Hrange)
    as [result' [Er [Rr _]]].
  destruct (add_at_ones _ _ sel (arange item_start item_stop) count Hcount Hrange)
    as [count' [Ec [Rc Tc]]].
  exists result', count'. split.
  - unfold Fold._integrate. fold sel. rewrite Er. cbn [bind]. rewrite Ec. reflexivity.
  - split; [exact Rr |]. split; [exact Rc |].
    rewrite Tc, length_arange by exact Hse. reflexivity.
Qed.

Lemma fold_deliver_total (self : Fold.t) (offsets : list Z) (source : list Q) :
  (0 < Fold.n_phase self)%nat ->
  (0 < Fold.samples_per_frame self)%nat ->
  length offsets = S (Fold.samples_per_frame self) ->
  forall pieces pos result count,
    Z.of_nat (pos + fold_right Nat.add O pieces) <= last offsets 0 ->
    rectangular (Fold.samples_per_frame self) (Fold.n_phase self) result ->
    rectangular (Fold.samples_per_frame self) (Fold.n_phase self) count ->
    exists result' count',
      Stream.deliver (Fold._integrate self offsets) source pieces pos
        (result, count) = Done (result', count')
      /\ rectangular (Fold.samples_per_frame self) (Fold.n_phase self) count'
      /\ total count' = total count + Z.of_nat (fold_right Nat.add O pieces).
Proof.
  intros Hn Hspf Hlen.
  induction pieces as [| c pieces IH]; intros pos result count Hlast Hresult Hcount.
  - exists result, count. split; [reflexivity |]. split; [exact Hcount | cbn; lia].
  - cbn [fold_right Stream.deliver] in *.
    destruct (fold_integrate_total self offsets (Z.of_nat pos) (Z.of_nat (pos + c))
                (py_slice source pos (pos + c)) result count Hn Hspf Hlen
                ltac:(lia) ltac:(lia) Hresult Hcount)
      as [result1 [count1 [E1 [Rr1 [Rc1 T1]]]]].
    rewrite E1. cbn [bind].
    destruct (IH (pos + c)%nat result1 count1 ltac:(lia) Rr1 Rc1)
      as [result2 [count2 [E2 [Rc2 T2]]]].
    exists result2, count2. split; [exact E2 |]. split; [exact Rc2 |]. lia.
Qed.

Lemma rectangular_repeat {A : Type} (n_rows n_cols : nat) (x : A) :
  rectangular n_rows n_cols (repeat (repeat x n_cols) n_rows).
Proof.
  split; [apply repeat_length |].
  apply Forall_forall. intros row Hrow. apply repeat_spec in Hrow. subst row.
  apply repeat_length.
Qed.

Lemma total_zeros (n_rows n_cols : nat) :
  total (repeat (repeat 0 n_cols) n_rows) = 0.
Proof.
  unfold total.
  assert (Hrow : Zsum (repeat 0 n_cols) = 0).
  { induction n_cols as [| n IH]; [reflexivity |].
    cbn [repeat]. change (Zsum (?x :: ?l)) with (x + Zsum l). lia. }
  induction n_rows as [| n IH]; [reflexivity |].
  cbn [repeat map]. change (Zsum (?x :: ?l)) with (x + Zsum l). lia.
Qed.

Lemma fold_read_total (self : Fold.t) (ih : Stream.t) (offsets : list Z)
    (result : list (list Q)) (count : list (list Z)) :
  (0 < Fold.n_phase self)%nat ->
  (0 < Fold.samples_per_frame self)%nat ->
  length offsets = S (Fold.samples_per_frame self) ->
  Stream.reader_ok ih ->
  0 <= Stream.offset ih ->
  0 <= last offsets 0 ->
  Stream.offset ih + last offsets 0 <= Stream.shape0 ih ->
  rectangular (Fold.samples_per_frame self) (Fold.n_phase self) result ->
  rectangular (Fold.samples_per_frame self) (Fold.n_phase self) count ->
  exists result' count' pos,
    Stream.read (Fold._integrate self offsets) ih (last offsets 0) (result, count) =
      Done ((result', count'), Stream.seek ih pos)
    /\ rectangular (Fold.samples_per_frame self) (Fold.n_phase self) count'
    /\ total count' = total count + last offsets 0.
Proof.
  intros Hn Hspf Hlen Hreader Hpos Hlast0 Hend Hresult Hcount.
  unfold Stream.read.
  destruct (Z.leb_spec (last offsets 0) 0) as [Hz | Hnz].
  - exists result, count, (Stream.offset ih). rewrite seek_here.
    split; [reflexivity |]. split; [exact Hcount | lia].
  - replace ((0 <=? Stream.offset ih)
             && (Stream.offset ih + last offsets 0 <=? Stream.shape0 ih)) with true
      by (symmetry; apply andb_true_intro; split; apply Z.leb_le; lia).
    destruct (Hreader (Z.to_nat (Stream.offset ih)) (Z.to_nat (last offsets 0)))
      as [Hsum _].
    destruct (fold_deliver_total self offsets
                (py_slice (Stream.data ih) (Z.to_nat (Stream.offset ih))
                   (Z.to_nat (Stream.offset ih + last offsets 0)))
                Hn Hspf Hlen
                (Stream.chunking ih (Z.to_nat (Stream.offset ih))
                   (Z.to_nat (last offsets 0)))
                O result count)
      as [result' [count' [E [Rc Tc]]]]; try assumption.
    { rewrite Hsum. cbn [Nat.add]. lia. }
    rewrite E. cbn [bind].
    exists result', count', (Stream.offset ih + last offsets 0).
    split; [reflexivity |]. split; [exact Rc |]. rewrite Tc, Hsum. lia.
Qed.

(** A frame of a [Fold] whose integrator has no phase function, for edges
    inside the stream. *)
Lemma fold_frame_total (fuel : nat) (self : Fold.t) (frame_index : nat) :
  Integrate.phase (Fold._integrator self) = None ->
  Integrate.samples_per_frame (Fold._integrator self) = Fold.samples_per_frame self ->
  (0 < Integrate.sample_rate (Fold._integrator self))%Q ->
  (0 < Stream.sample_rate (Integrate.ih (Fold._integrator self)))%Q ->
  Stream.reader_ok (Fold.ih self) ->
  (0 < Fold.n_phase self)%nat ->
  (0 < Fold.samples_per_frame self)%nat ->
  0 <= nth 0 (fixed_edges (Fold._integrator self) frame_index) 0 ->
  nth (Fold.samples_per_frame self) (fixed_edges (Fold._integrator self) frame_index) 0
    <= Stream.shape0 (Fold.ih self) ->
  exists frame self',
    Fold._read_frame fuel self frame_index = Done (frame, self')
    /\ rectangular (Fold.samples_per_frame self) (Fold.n_phase self)
         (snd (IntegrateBase.acc frame))
    /\ total (snd (IntegrateBase.acc frame)) =
         nth (Fold.samples_per_frame self)
             (fixed_edges (Fold._integrator self) frame_index) 0
         - nth 0 (fixed_edges (Fold._integrator self) frame_index) 0
    /\ Fold._raw_time self' =
         Stream.time_at (Fold.ih self)
           (nth 0 (fixed_edges (Fold._integrator self) frame_index) 0).
Proof.
  intros Hphase Hsame Hrate Hih Hreader Hn Hspf Hlow Hhigh.
  set (integ := Fold._integrator self) in *.
  pose proof (fixed_edges_length integ frame_index) as Hlen.
  pose proof (fixed_edges_sorted integ frame_index Hrate Hih) as Hsorted.
  pose proof (fixed_edges_nth integ frame_index 0 ltac:(lia)) as Hfirst.
  rewrite Nat.add_0_r in Hfirst. rewrite Hsame in *.
  unfold Fold._read_frame.
  unfold Fold._get_offsets at 1. fold integ.
  unfold Integrate._get_offsets at 1. rewrite Hphase. cbn [bind pymap].
  rewrite <- Hfirst.
  set (self1 := Fold.set_raw_time _ _).
  unfold IntegrateBase._read_frame, IntegrateBase.resolve_and_seek.
  unfold Fold._get_offsets at 1.
  change (Fold._integrator self1) with integ.
  unfold Integrate._get_offsets at 1. rewrite Hphase. cbn [bind].
  change (pymap (Integrate.fixed_offset integ)
            (IntegrateBase.frame_samples Fold.samples_per_frame self1 frame_index))
    with (Array (map (Integrate.fixed_offset integ)
                   (map (fun j => Z.of_nat (frame_index * Fold.samples_per_frame self + j))
                        (seq 0 (Fold.samples_per_frame self + 1))))).
  assert (Eedges : map (Integrate.fixed_offset integ)
                     (map (fun j => Z.of_nat (frame_index * Fold.samples_per_frame self + j))
                          (seq 0 (Fold.samples_per_frame self + 1)))
                   = fixed_edges integ frame_index).
  { unfold fixed_edges, IntegrateBase.frame_samples. cbn [atleast_1d].
    now rewrite Hsame. }
  rewrite Eedges.
  destruct (fixed_edges integ frame_index) as [| o0 edges] eqn:E;
    [cbn in Hlen; lia |].
  cbn [bind hd]. rewrite <- E in *.
  assert (H0 : nth 0 (fixed_edges integ frame_index) 0 = o0)
    by (rewrite E; reflexivity).
  rewrite H0 in *.
  set (rel := map (fun o => o - o0) (fixed_edges integ frame_index)).
  assert (Hrel_len : length rel = S (Fold.samples_per_frame self))
    by (unfold rel; now rewrite length_map).
  assert (Hrel_last : last rel 0
                      = nth (Fold.samples_per_frame self)
                            (fixed_edges integ frame_index) 0 - o0).
  { rewrite last_nth, Hrel_len. cbn [Nat.pred]. unfold rel.
    now rewrite (nth_map_in _ _ _ 0) by lia. }
  pose proof (nondecreasing_nth _ Hsorted 0 (Fold.samples_per_frame self)
                ltac:(lia) ltac:(lia)) as Hmono.
  set (self2 := Fold.set_integrator self1 integ).
  set (self3 := Fold.set_ih self2 (Stream.seek (Fold.ih self2) o0)).
  assert (Hend : Stream.offset (Fold.ih self3) + last rel 0
                 <= Stream.shape0 (Fold.ih self3)).
  { rewrite Hrel_last. unfold self3, self2, self1, Stream.shape0 in *.
    cbn [Fold.ih Fold.set_ih Fold.set_integrator Fold.set_raw_time
         Stream.offset Stream.seek Stream.data]. lia. }
  destruct (fold_read_total self3 (Fold.ih self3) rel
              (fst (Fold.zeros self3)) (snd (Fold.zeros self3))
              Hn Hspf Hrel_len (fun p c => Hreader p c)
              ltac:(cbn; lia) ltac:(rewrite Hrel_last; lia) Hend
              (rectangular_repeat _ _ 0%Q) (rectangular_repeat _ _ 0))
    as [result' [count' [pos [Er [Rc Tc]]]]].
  change (Fold.zeros self3) with (fst (Fold.zeros self3), snd (Fold.zeros self3)).
  rewrite Er. cbn [bind].
  eexists. eexists. split; [reflexivity |].
  cbn [IntegrateBase.acc snd]. split; [exact Rc |]. split.
  - rewrite Tc, Hrel_last. cbn [Fold.zeros snd]. rewrite total_zeros. lia.
  - reflexivity.
Qed.

Lemma init_config (ih : Stream.t) (step : step_arg) (phase : option (Q -> Q))
    (average : bool) (samples_per_frame : nat) (self : Integrate.t) :
  Integrate.init ih step phase average samples_per_frame = Done self ->
  Integrate.samples_per_frame self = samples_per_frame
  /\ Integrate.average self = average
  /\ Integrate.phase self = phase
  /\ Integrate.ih self = ih.
Proof.
  unfold Integrate.init.
  destruct (Qeq_bool _ 0); [discriminate |].
  destruct (py_int _ =? 0); [discriminate |].
  intros H. injection H as <-. repeat split.
Qed.

(** The edges of the output samples of a task without phase function lie
    inside the stream. *)
Lemma init_edges_within (ih : Stream.t) (step : step_arg) (average : bool)
    (samples_per_frame : nat) (self : Integrate.t) :
  (0 < Stream.sample_rate ih)%Q ->
  (0 < step_of ih step)%Q ->
  Integrate.init ih step None average samples_per_frame = Done self ->
  (0 < Integrate.sample_rate self)%Q
  /\ forall i, 0 <= i <= Integrate.shape0 self ->
       0 <= Integrate.fixed_offset self i <= Stream.shape0 ih.
Proof.
  intros Hrate Hstep Hinit.
  destruct (init_fixed_rate ih step average samples_per_frame self Hrate Hstep Hinit)
    as [Hih [Hphase [Hsr [Hshape Hfit]]]].
  assert (Hpos : (0 < Integrate.sample_rate self)%Q).
  { rewrite Hsr. apply Qlt_shift_div_l; lra. }
  split; [exact Hpos |].
  assert (H0 : Integrate.fixed_offset self 0 = 0).
  { unfold Integrate.fixed_offset. change 0 with (np_round 0) at 2.
    apply np_round_wd. change (inject_Z 0) with 0%Q. field. lra. }
  assert (HK : Integrate.fixed_offset self (Integrate.shape0 self) <= Stream.shape0 ih).
  { unfold Integrate.fixed_offset. rewrite Hih.
    rewrite <- (np_round_inject_Z (Stream.shape0 ih)). apply np_round_mono.
    rewrite Hsr.
    assert (E : (inject_Z (Integrate.shape0 self) / (1 / step_of ih step)
                 * Stream.sample_rate ih
                 == inject_Z (Integrate.shape0 self) * step_of ih step
                    * Stream.sample_rate ih)%Q) by (field; lra).
    rewrite E.
    assert (E2 : (inject_Z (Stream.shape0 ih)
                  == inject_Z (Stream.shape0 ih) / Stream.sample_rate ih
                     * Stream.sample_rate ih)%Q) by (field; lra).
    rewrite E2. apply Qmult_le_compat_r; lra. }
  intros i Hi.
  pose proof (fixed_offset_mono self 0 i Hpos ltac:(rewrite Hih; exact Hrate) ltac:(lia)).
  pose proof (fixed_offset_mono self i (Integrate.shape0 self) Hpos
                ltac:(rewrite Hih; exact Hrate) ltac:(lia)).
  lia.
Qed.



(** ** The sums of the bins *)

Lemma increasing_nondecreasing (l : list Z) : increasing l -> nondecreasing l.
Proof.
  induction l as [| x [| y l] IH]; intros H; try exact I.
  split.
  - pose proof (H O ltac:(cbn; lia)) as H0. cbn in H0. lia.
  - apply IH. intros j Hj. apply (H (S j)). cbn in *. lia.
Qed.

(** A position clipped to two adjacent intervals. *)
Lemma prefix_clip_split (source : list Q) (p q r x : Z) :
  p <= q -> q <= r ->
  (prefix source (clip p q x) + prefix source (clip q r x)
   == prefix source (clip p r x) + prefix source q)%Q.
Proof.
  intros Hpq Hqr. destruct (Z_le_gt_dec x q) as [H | H].
  - replace (clip p q x) with (clip p r x) by (unfold clip; lia).
    replace (clip q r x) with q by (unfold clip; lia). reflexivity.
  - replace (clip p q x) with q by (unfold clip; lia).
    replace (clip q r x) with (clip p r x) by (unfold clip; lia). ring.
Qed.

(** The pieces of a request, delivered one after the other from position
    [pos] on, add to the sum of every bin the samples of the request that
    lie in the bin. *)
Lemma deliver_sums (offsets : list Z) (source : list Q) :
  increasing offsets ->
  nth 0 offsets 0 = 0 ->
  forall pieces pos result count result' count',
    Forall (fun c => (0 < c)%nat) pieces ->
    Z.of_nat (pos + fold_right Nat.add O pieces)
      <= nth (pred (length offsets)) offsets 0 ->
    (pos + fold_right Nat.add O pieces <= length source)%nat ->
    length result = pred (length offsets) ->
    length count = pred (length offsets) ->
    Stream.deliver (IntegrateBase._integrate offsets) source pieces pos
      (result, count) = Done (result', count') ->
    forall b, (b < pred (length offsets))%nat ->
      (nth b result' 0 ==
         nth b result 0
         + (prefix source
              (clip (Z.of_nat pos) (Z.of_nat (pos + fold_right Nat.add O pieces))
                 (nth (S b) offsets 0%Z))
            - prefix source
                (clip (Z.of_nat pos) (Z.of_nat (pos + fold_right Nat.add O pieces))
                   (nth b offsets 0%Z))))%Q.
Proof.
  intros Hinc Hfirst.
  pose proof (increasing_nondecreasing offsets Hinc) as Hsorted.
  induction pieces as [| c pieces IH];
    intros pos result count result' count' Hpos Hlast Hsrc Hr Hc E b Hb.
  - cbn [Stream.deliver fold_right] in *. injection E as <- <-.
    rewrite Nat.add_0_r.
    replace (clip (Z.of_nat pos) (Z.of_nat pos) (nth (S b) offsets 0))
      with (Z.of_nat pos) by (unfold clip; lia).
    replace (clip (Z.of_nat pos) (Z.of_nat pos) (nth b offsets 0))
      with (Z.of_nat pos) by (unfold clip; lia).
    ring.
  - cbn [fold_right] in *. inversion Hpos as [| ? ? Hcpos Hrest]; subst.
    cbn [Stream.deliver] in E.
    destruct (integrate_sums offsets (Z.of_nat pos) (Z.of_nat (pos + c))
                Hsorted ltac:(lia) ltac:(lia) ltac:(lia)
                source result count Hinc ltac:(lia) ltac:(lia) Hr Hc)
      as [result1 [E1 [L1 N1]]].
    rewrite !Nat2Z.id in E1. rewrite E1 in E. cbn [bind] in E.
    assert (Lc : length (zip_with Z.add count
                           (overlap offsets (Z.of_nat pos) (Z.of_nat (pos + c))))
                 = pred (length offsets)).
    { rewrite length_zip_with, length_overlap. lia. }
    pose proof (IH (pos + c)%nat result1 _ result' count' Hrest
                  ltac:(lia) ltac:(lia) L1 Lc E b Hb) as N2.
    rewrite N2, (N1 b Hb).
    replace (pos + c + fold_right Nat.add 0%nat pieces)%nat
      with (pos + (c + fold_right Nat.add 0%nat pieces))%nat by lia.
    set (q := Z.of_nat (pos + c)).
    set (r := Z.of_nat (pos + (c + fold_right Nat.add 0%nat pieces))).
    pose proof (prefix_clip_split source (Z.of_nat pos) q r (nth (S b) offsets 0)
                  ltac:(lia) ltac:(lia)) as S1.
    pose proof (prefix_clip_split source (Z.of_nat pos) q r (nth b offsets 0)
                  ltac:(lia) ltac:(lia)) as S2.
    lra.
Qed.

(** A whole request, read into buffers, when no bin is empty: the counts
    grow by the widths of the bins and the sums by the samples of the stream
    between the edges of the bins. *)
Lemma read_sums (ih : Stream.t) (offsets : list Z) (result : list Q)
    (count : list Z) :
  Stream.reader_ok ih ->
  increasing offsets ->
  nth 0 offsets 0 = 0 ->
  0 <= Stream.offset ih ->
  Stream.offset ih + last offsets 0 <= Stream.shape0 ih ->
  length result = pred (length offsets) ->
  length count = pred (length offsets) ->
  exists result' pos,
    Stream.read (IntegrateBase._integrate offsets) ih (last offsets 0)
      (result, count) =
    Done ((result', zip_with Z.add count (diff offsets)), Stream.seek ih pos)
    /\ length result' = pred (length offsets)
    /\ forall b, (b < pred (length offsets))%nat ->
         (nth b result' 0 ==
            nth b result 0
            + Qsum (samples_between ih (Stream.offset ih + nth b offsets 0%Z)
                      (Stream.offset ih + nth (S b) offsets 0%Z)))%Q.
Proof.
  intros Hreader Hinc Hfirst Hpos Hend Hr Hc.
  pose proof (increasing_nondecreasing offsets Hinc) as Hsorted.
  destruct (read_counts ih offsets result count Hreader Hsorted Hfirst Hpos Hend Hr Hc)
    as [result' [pos [E L]]].
  exists result', pos. split; [exact E |]. split; [exact L |].
  intros b Hb.
  rewrite last_nth in *. set (total := nth (pred (length offsets)) offsets 0) in *.
  pose proof (nondecreasing_nth offsets Hsorted 0 b ltac:(lia) ltac:(lia)) as B0.
  pose proof (Hinc b ltac:(lia)) as B1.
  pose proof (nondecreasing_nth offsets Hsorted (S b) (pred (length offsets))
                ltac:(lia) ltac:(lia)) as B2.
  fold total in B2.
  unfold Stream.read in E.
  destruct (Z.leb_spec total 0) as [Hz | Hnz]; [lia |].
  replace ((0 <=? Stream.offset ih) && (Stream.offset ih + total <=? Stream.shape0 ih))
    with true in E
    by (symmetry; apply andb_true_intro; split; apply Z.leb_le; lia).
  destruct (Hreader (Z.to_nat (Stream.offset ih)) (Z.to_nat total)) as [Hsum Hpieces].
  set (source := py_slice (Stream.data ih) (Z.to_nat (Stream.offset ih))
                   (Z.to_nat (Stream.offset ih + total))) in *.
  assert (Hsource : length source = Z.to_nat total).
  { unfold source. rewrite length_py_slice. unfold Stream.shape0 in Hend. lia. }
  destruct (Stream.deliver (IntegrateBase._integrate offsets) source
              (Stream.chunking ih (Z.to_nat (Stream.offset ih)) (Z.to_nat total))
              0 (result, count)) as [[r1 c1] | |] eqn:Ed;
    cbn [bind] in E; try discriminate E.
  injection E as -> _ _.
  rewrite (deliver_sums offsets source Hinc Hfirst _ O result count result' c1
             Hpieces ltac:(rewrite Hsum; cbn [Nat.add]; fold total; lia)
             ltac:(rewrite Hsum; lia) Hr Hc Ed b Hb).
  rewrite Hsum. cbn [Nat.add Z.of_nat]. rewrite Z2Nat.id by lia.
  rewrite !clip_inside by lia.
  unfold prefix. rewrite <- prefix_slice by lia.
  unfold source, samples_between. rewrite py_slice_py_slice by lia.
  rewrite <- !Z2Nat.inj_add by lia. reflexivity.
Qed.

Lemma increasing_shift (d : Z) (l : list Z) :
  increasing l -> increasing (map (fun o => o - d) l).
Proof.
  intros H j Hj. rewrite length_map in Hj.
  rewrite !(nth_map_in _ _ _ 0) by lia. specialize (H j Hj). lia.
Qed.

(** One frame in fixed-rate mode, for edges inside the stream and no empty
    bin: the read succeeds, the count of every bin is the distance of its
    edges and its sum is the sum of the samples between its edges. *)
Lemma read_frame_sums (fuel : nat) (self : Integrate.t) (frame_index : nat) :
  Integrate.phase self = None ->
  (0 < Integrate.sample_rate self)%Q ->
  (0 < Stream.sample_rate (Integrate.ih self))%Q ->
  Stream.reader_ok (Integrate.ih self) ->
  increasing (fixed_edges self frame_index) ->
  0 <= nth 0 (fixed_edges self frame_index) 0 ->
  nth (Integrate.samples_per_frame self) (fixed_edges self frame_index) 0
    <= Stream.shape0 (Integrate.ih self) ->
  exists frame pos,
    Integrate._read_frame fuel self frame_index =
      Done (frame, Integrate.set_ih self (Stream.seek (Integrate.ih self) pos))
    /\ counts frame = diff (fixed_edges self frame_index)
    /\ length (sums frame) = Integrate.samples_per_frame self
    /\ (forall b, (b < Integrate.samples_per_frame self)%nat ->
          (nth b (sums frame) 0 ==
             Qsum (samples_between (Integrate.ih self)
                     (nth b (fixed_edges self frame_index) 0%Z)
                     (nth (S b) (fixed_edges self frame_index) 0%Z)))%Q)
    /\ IntegrateBase.out frame =
         if Integrate.average self
         then Averaged (Integrate.divide (IntegrateBase.acc frame))
         else Structured (IntegrateBase.acc frame).
Proof.
  intros Hphase Hrate Hih Hreader Hinc Hlow Hhigh.
  pose proof (fixed_edges_length self frame_index) as Hlen.
  unfold Integrate._read_frame, IntegrateBase._read_frame,
    IntegrateBase.resolve_and_seek.
  unfold Integrate._get_offsets at 1. rewrite Hphase. cbn [bind].
  change (pymap (Integrate.fixed_offset self)
            (IntegrateBase.frame_samples Integrate.samples_per_frame self frame_index))
    with (Array (fixed_edges self frame_index)).
  destruct (fixed_edges self frame_index) as [| o0 edges] eqn:E;
    [cbn in Hlen; lia |].
  cbn [bind hd]. rewrite <- E in *.
  set (rel := map (fun o => o - o0) (fixed_edges self frame_index)).
  assert (Hrel_len : length rel = S (Integrate.samples_per_frame self))
    by (unfold rel; now rewrite length_map).
  assert (Ho0 : nth 0 (fixed_edges self frame_index) 0 = o0) by (rewrite E; reflexivity).
  destruct (read_sums
              (Integrate.ih (Integrate.set_ih self (Stream.seek (Integrate.ih self) o0)))
              rel (repeat 0%Q (Integrate.samples_per_frame self))
              (repeat 0 (Integrate.samples_per_frame self)))
    as [result' [pos [Er [Lr Nr]]]].
  - intros p c. apply Hreader.
  - now apply increasing_shift.
  - unfold rel. rewrite (nth_map_in _ _ _ 0) by lia. lia.
  - cbn. lia.
  - rewrite last_nth, Hrel_len. cbn [Nat.pred]. unfold rel.
    rewrite (nth_map_in _ _ _ 0) by lia.
    cbn [Integrate.ih Integrate.set_ih Stream.offset Stream.seek Stream.shape0
         Stream.data] in *.
    unfold Stream.shape0 in *. cbn [Stream.seek Stream.data]. lia.
  - rewrite Hrel_len, repeat_length. reflexivity.
  - rewrite Hrel_len, repeat_length. reflexivity.
  - unfold Integrate.zeros.
    cbn [Integrate.samples_per_frame Integrate.set_ih] in *.
    rewrite Er. cbn [bind].
    eexists. exists pos. split; [reflexivity |].
    unfold counts, sums. cbn [IntegrateBase.acc IntegrateBase.out snd fst].
    split; [| split; [| split]].
    + unfold rel. rewrite diff_shift.
      apply (nth_ext _ _ 0 0).
      * rewrite length_zip_with, repeat_length, length_diff, Hlen. cbn. lia.
      * intros b Hb.
        rewrite length_zip_with, repeat_length, length_diff, Hlen in Hb.
        cbn [Nat.pred] in Hb.
        rewrite (nth_zip_with Z.add 0 0 0)
          by (rewrite ?repeat_length, ?length_diff, ?Hlen; cbn; lia).
        rewrite nth_repeat. lia.
    + rewrite Lr, Hrel_len. reflexivity.
    + intros b Hb. rewrite Nr by (rewrite Hrel_len; cbn [Nat.pred]; exact Hb).
      rewrite nth_repeat. unfold rel.
      rewrite !(nth_map_in _ _ _ 0) by lia.
      unfold samples_between.
      cbn [Integrate.ih Integrate.set_ih Stream.offset Stream.seek Stream.data].
      replace (o0 + (nth b (fixed_edges self frame_index) 0 - o0))
        with (nth b (fixed_edges self frame_index) 0) by lia.
      replace (o0 + (nth (S b) (fixed_edges self frame_index) 0 - o0))
        with (nth (S b) (fixed_edges self frame_index) 0) by lia.
      ring.
    + reflexivity.
Qed.

(** At an output rate that is not above the rate of the stream, every
    output sample starts after the one before it. *)
Lemma fixed_offset_increasing (self : Integrate.t) (i : Z) :
  (0 < Integrate.sample_rate self)%Q ->
  (Integrate.sample_rate self <= Stream.sample_rate (Integrate.ih self))%Q ->
  Integrate.fixed_offset self i < Integrate.fixed_offset self (i + 1).
Proof.
  intros Hsr Hle. unfold Integrate.fixed_offset.
  set (sr := Integrate.sample_rate self) in *.
  set (rate := Stream.sample_rate (Integrate.ih self)) in *.
  destruct (Qlt_le_dec sr rate) as [Hlt | Hge].
  - destruct (np_round_bounds (inject_Z i / sr * rate)) as [Hx _].
    destruct (np_round_bounds (inject_Z (i + 1) / sr * rate)) as [_ Hy].
    assert (Hstep : (inject_Z (i + 1) / sr * rate
                     == inject_Z i / sr * rate + rate / sr)%Q).
    { rewrite inject_Z_succ. field. lra. }
    assert (Hr : (1 < rate / sr)%Q) by (apply Qlt_shift_div_l; lra).
    apply inject_Z_lt_inv. lra.
  - assert (Er : (rate == sr)%Q) by lra.
    assert (E1 : (inject_Z i / sr * rate == inject_Z i)%Q)
      by (rewrite Er; field; lra).
    assert (E2 : (inject_Z (i + 1) / sr * rate == inject_Z (i + 1))%Q)
      by (rewrite Er; field; lra).
    rewrite E1, E2, !np_round_inject_Z. lia.
Qed.



(** ** The length of the output *)

(** [Integrate.__init__] without phase function, for a positive step: when
    the stream is shorter than one step the output would be empty and the
    constructor raises on the division by [shape[0]]; otherwise the output
    has as many samples as there are whole steps in the stream, no more and
    no less, and the mean number of input samples per output sample is at
    least the number of input samples in a step. *)
Theorem output_holds_whole_steps (ih : Stream.t) (step : step_arg) (average : bool)
    (samples_per_frame : nat) :
  (0 < Stream.sample_rate ih)%Q ->
  (0 < step_of ih step)%Q ->
  match Integrate.init ih step None average samples_per_frame with
  | Done self =>
      1 <= Integrate.shape0 self
      /\ (inject_Z (Integrate.shape0 self) * step_of ih step <= duration ih)%Q
      /\ (duration ih < (inject_Z (Integrate.shape0 self) + 1) * step_of ih step)%Q
      /\ (step_of ih step * Stream.sample_rate ih
          <= Integrate._ih_mean_sample_per_sample self)%Q
  | Raised e => e = ZeroDivisionError /\ (duration ih < step_of ih step)%Q
  | Diverged => False
  end.
Proof.
  intros Hrate Hstep. unfold Integrate.init. fold (step_of ih step).
  destruct (Qeq_bool (step_of ih step) 0) eqn:Eq0;
    [apply Qeq_bool_iff in Eq0; lra |].
  fold (duration ih).
  set (x := (duration ih / step_of ih step)%Q).
  assert (Ed : (duration ih == inject_Z (Stream.shape0 ih) / Stream.sample_rate ih)%Q).
  { unfold duration, Stream.stop_time, Stream.time_at. field. lra. }
  assert (Hd : (0 <= duration ih)%Q).
  { rewrite Ed. apply Qle_shift_div_l; [exact Hrate |]. rewrite Qmult_0_l.
    unfold Stream.shape0. change 0%Q with (inject_Z 0). rewrite <- Zle_Qle. lia. }
  assert (Hx : (0 <= x)%Q).
  { unfold x. apply Qle_shift_div_l; [exact Hstep |]. rewrite Qmult_0_l. exact Hd. }
  assert (Hint : py_int x = Qfloor x).
  { unfold py_int. now replace (Qle_bool 0 x) with true
      by (symmetry; now apply Qle_bool_iff). }
  assert (E : (duration ih == x * step_of ih step)%Q) by (unfold x; field; lra).
  destruct (Qfloor_bounds x) as [B1 B2].
  assert (H0 : 0 <= Qfloor x)
    by (change 0 with (Qfloor 0); now apply Qfloor_resp_le).
  rewrite Hint.
  destruct (Z.eqb_spec (Qfloor x) 0) as [E0 | NE0].
  - split; [reflexivity |]. rewrite E0 in B2. change (inject_Z 0) with 0%Q in B2.
    rewrite E.
    assert (H1 : (x * step_of ih step < 1 * step_of ih step)%Q)
      by (apply Qmult_lt_compat_r; lra).
    lra.
  - cbn [Integrate.shape0 Integrate._ih_mean_sample_per_sample].
    assert (Hfit : (inject_Z (Qfloor x) * step_of ih step <= duration ih)%Q).
    { rewrite E. apply Qmult_le_compat_r; lra. }
    split; [lia |]. split; [exact Hfit |]. split.
    + rewrite E. apply Qmult_lt_compat_r; lra.
    + assert (Hk : (0 < inject_Z (Qfloor x))%Q).
      { change 0%Q with (inject_Z 0). rewrite <- Zlt_Qlt. lia. }
      apply Qle_shift_div_l; [exact Hk |].
      assert (EM : (inject_Z (Stream.shape0 ih)
                    == duration ih * Stream.sample_rate ih)%Q)
        by (rewrite Ed; field; lra).
      rewrite EM.
      assert (H1 : (inject_Z (Qfloor x) * step_of ih step * Stream.sample_rate ih
                    <= duration ih * Stream.sample_rate ih)%Q)
        by (apply Qmult_le_compat_r; lra).
      lra.
Qed.

Lemma output_holds_whole_steps_witness :
  match Integrate.init ten_samples (StepIndex 12) None true 1 with
  | Done self =>
      1 <= Integrate.shape0 self
      /\ (inject_Z (Integrate.shape0 self) * step_of ten_samples (StepIndex 12)
          <= duration ten_samples)%Q
      /\ (duration ten_samples
          < (inject_Z (Integrate.shape0 self) + 1)
            * step_of ten_samples (StepIndex 12))%Q
      /\ (step_of ten_samples (StepIndex 12) * Stream.sample_rate ten_samples
          <= Integrate._ih_mean_sample_per_sample self)%Q
  | Raised e =>
      e = ZeroDivisionError
      /\ (duration ten_samples < step_of ten_samples (StepIndex 12))%Q
  | Diverged => False
  end.
Proof.
  apply (output_holds_whole_steps ten_samples (StepIndex 12) true 1); reflexivity.
Defined.

(** [Stack.__init__], for a phase that does not run backwards over the
    stream: a [Stack] that can be constructed has one profile for every
    whole cycle of the stream, the composed [Integrate] has one sample for
    every whole phase bin, and every frame inside the output of the [Stack]
    lies inside the output of the composed [Integrate]. *)
Theorem stack_profile_per_cycle (ih : Stream.t) (n_phase : nat) (phase : Q -> Q)
    (average : bool) (samples_per_frame : nat) (self : Stack.t) :
  (0 < n_phase)%nat ->
  (0 <= cycles ih phase)%Q ->
  Stack.init ih n_phase phase average samples_per_frame = Done self ->
  Stack.shape0 self = Qfloor (cycles ih phase)
  /\ Integrate.shape0 (Stack.ih self)
     = Qfloor (cycles ih phase * inject_Z (Z.of_nat n_phase))
  /\ forall frame_index,
       Z.of_nat ((frame_index + 1) * samples_per_frame) <= Stack.shape0 self ->
       Z.of_nat ((frame_index + 1) * Integrate.samples_per_frame (Stack.ih self))
         <= Integrate.shape0 (Stack.ih self).
Proof.
  intros Hn Hc Hinit. unfold Stack.init in Hinit.
  destruct (Integrate.init ih (StepQuantity (1 / inject_Z (Z.of_nat n_phase)))
              (Some phase) average (samples_per_frame * n_phase))
    as [phased | |] eqn:Ei; cbn [bind] in Hinit; try discriminate Hinit.
  injection Hinit as <-. cbn [Stack.shape0 Stack.ih].
  set (n := Z.of_nat n_phase) in *.
  assert (Hqn : (0 < inject_Z n)%Q).
  { change 0%Q with (inject_Z 0). rewrite <- Zlt_Qlt. lia. }
  set (x := (cycles ih phase * inject_Z n)%Q).
  assert (Hx : (0 <= x)%Q) by (unfold x; apply Qmult_le_0_compat; lra).
  assert (Hshape : Integrate.shape0 phased = Qfloor x
                   /\ Integrate.samples_per_frame phased
                      = (samples_per_frame * n_phase)%nat).
  { unfold Integrate.init in Ei.
    destruct (Qeq_bool (1 / inject_Z n) 0); [discriminate Ei |].
    fold (cycles ih phase) in Ei.
    assert (Ex : (cycles ih phase / (1 / inject_Z n) == x)%Q)
      by (unfold x; field; lra).
    assert (Hint : py_int (cycles ih phase / (1 / inject_Z n)) = Qfloor x).
    { unfold py_int.
      replace (Qle_bool 0 (cycles ih phase / (1 / inject_Z n))) with true
        by (symmetry; apply Qle_bool_iff; rewrite Ex; exact Hx).
      now rewrite Ex. }
    rewrite Hint in Ei.
    destruct (Qfloor x =? 0); [discriminate Ei |].
    injection Ei as <-. split; reflexivity. }
  destruct Hshape as [Hshape Hspf]. rewrite Hshape, Hspf.
  assert (Hdiv : Qfloor x / n = Qfloor (cycles ih phase)).
  { set (k := Qfloor (cycles ih phase)).
    destruct (Qfloor_bounds (cycles ih phase)) as [B1 B2]. fold k in B1, B2.
    assert (L : k * n <= Qfloor x).
    { rewrite <- (Qfloor_Z (k * n)). apply Qfloor_resp_le.
      rewrite inject_Z_mult. unfold x. apply Qmult_le_compat_r; lra. }
    assert (U : Qfloor x < (k + 1) * n).
    { apply inject_Z_lt_inv. destruct (Qfloor_bounds x) as [B3 _].
      rewrite inject_Z_mult, inject_Z_succ.
      assert (H : (x < (inject_Z k + 1) * inject_Z n)%Q)
        by (unfold x; apply Qmult_lt_compat_r; lra).
      lra. }
    symmetry. apply (Z.div_unique_pos _ _ _ (Qfloor x - k * n)); lia. }
  split; [exact Hdiv |]. split; [reflexivity |].
  intros frame_index Hframe. rewrite Hdiv in Hframe.
  assert (Hk : Qfloor (cycles ih phase) * n <= Qfloor x).
  { rewrite <- Hdiv. pose proof (Z.mul_div_le (Qfloor x) n ltac:(lia)). lia. }
  unfold n in *. nia.
Qed.

Lemma stack_profile_per_cycle_witness :
  Stack.shape0 stacked = Qfloor (cycles (ramp 32) (linear_phase (1 # 10)))
  /\ Integrate.shape0 (Stack.ih stacked)
     = Qfloor (cycles (ramp 32) (linear_phase (1 # 10)) * inject_Z (Z.of_nat 3))
  /\ forall frame_index,
       Z.of_nat ((frame_index + 1) * 1) <= Stack.shape0 stacked ->
       Z.of_nat ((frame_index + 1) * Integrate.samples_per_frame (Stack.ih stacked))
         <= Integrate.shape0 (Stack.ih stacked).
Proof.
  apply (stack_profile_per_cycle (ramp 32) 3 (linear_phase (1 # 10)) true 1 stacked).
  - lia.
  - apply Qle_bool_imp_le. reflexivity.
  - exact stacked_init.
Defined.
